(** * The week5 aggregation engine ([src/week5/src/core/statistics.js])

    A shallow embedding of the statistics core: the precision helpers, the
    summarizer, the record validator, the grouping index, the batch
    aggregator and the streaming aggregator, followed by the properties the
    specification states about them.

    JavaScript numbers are IEEE 754 binary64 values.  They are modelled by
    the Standard Library's [spec_float] at precision 53 and maximal exponent
    1024, whose operations ([SFadd], [SFmul], [SFdiv], ...) are the
    round-to-nearest-even operations of binary64 written over [Z]. *)

From Stdlib Require Import ZArith List Bool String Ascii Lia.
From Stdlib Require Import Permutation Sorted DecimalString SpecFloat.
Import ListNotations.

Local Open Scope string_scope.
Local Open Scope Z_scope.

(** ** Numbers *)

Definition number : Type := spec_float.

Definition prec : Z := 53.
Definition emax : Z := 1024.

Definition NaN : number := S754_nan.
Definition pos_zero : number := S754_zero false.
Definition neg_zero : number := S754_zero true.
Definition pos_infinity : number := S754_infinity false.
Definition neg_infinity : number := S754_infinity true.

(** The double nearest to an integer (ties to even); [szero] is the sign
    given to a zero result. *)
Definition int_to_number (szero : bool) (z : Z) : number :=
  binary_normalize prec emax z 0 szero.

Definition num_of_Z (z : Z) : number := int_to_number false z.

(** The JavaScript operators [+], [-], [*], [/] on numbers. *)
Definition num_add : number -> number -> number := SFadd prec emax.
Definition num_sub : number -> number -> number := SFsub prec emax.
Definition num_mul : number -> number -> number := SFmul prec emax.
Definition num_div : number -> number -> number := SFdiv prec emax.

(** [a < b], [a > b] and [a === b] on numbers ([NaN] compares false). *)
Definition num_lt : number -> number -> bool := SFltb.
Definition num_gt (a b : number) : bool := SFltb b a.
Definition num_eq : number -> number -> bool := SFeqb.

Definition is_nan (x : number) : bool :=
  match x with S754_nan => true | _ => false end.

Definition is_finite (x : number) : bool :=
  match x with
  | S754_zero _ | S754_finite _ _ _ => true
  | S754_infinity _ | S754_nan => false
  end.

Definition is_zero (x : number) : bool :=
  match x with S754_zero _ => true | _ => false end.

(** A [spec_float] is a double when its mantissa and exponent are the
    canonical ones of binary64. *)
Definition valid_number (x : number) : Prop := valid_binary prec emax x = true.

(** Structural equality of numbers: [Object.is]. *)
Definition number_eqb (x y : number) : bool :=
  match x, y with
  | S754_zero s1, S754_zero s2 => Bool.eqb s1 s2
  | S754_infinity s1, S754_infinity s2 => Bool.eqb s1 s2
  | S754_nan, S754_nan => true
  | S754_finite s1 m1 e1, S754_finite s2 m2 e2 =>
      Bool.eqb s1 s2 && Pos.eqb m1 m2 && Z.eqb e1 e2
  | _, _ => false
  end.

(** [Math.round]: the integral number closest to [x], the one closer to
    +Infinity when two are equally close; [-0] for [-0.5 <= x < 0].  A
    double with a non-negative exponent is integral already; otherwise
    [x = (+/-m) / 2^(-e)] and the result is [floor (x + 1/2)], computed
    exactly. *)
Definition Math_round (x : number) : number :=
  match x with
  | S754_finite s m e =>
      if 0 <=? e then x
      else int_to_number s ((2 * cond_Zopp s (Zpos m) + 2 ^ (- e)) / 2 ^ (1 - e))
  | _ => x
  end.

(** [Math.pow(10, p)] for a natural [p]: the double nearest to [10^p]
    (exact up to [p = 22]). *)
Definition Math_pow10 (p : nat) : number := num_of_Z (10 ^ Z.of_nat p).

(** [Math.max(...l)] and [Math.min(...l)], as ECMAScript defines them: the
    scan starts from -Infinity (resp. +Infinity), a [NaN] argument makes the
    result [NaN], and [+0] is larger than [-0].  The language sets no limit
    on the number of arguments of a call. *)
Fixpoint Math_max_from (highest : number) (l : list number) : number :=
  match l with
  | [] => highest
  | n :: l' =>
      if is_nan n then NaN
      else
        let highest1 :=
          if number_eqb n pos_zero && number_eqb highest neg_zero
          then pos_zero else highest in
        Math_max_from (if num_gt n highest1 then n else highest1) l'
  end.

Definition Math_max (l : list number) : number := Math_max_from neg_infinity l.

Fixpoint Math_min_from (lowest : number) (l : list number) : number :=
  match l with
  | [] => lowest
  | n :: l' =>
      if is_nan n then NaN
      else
        let lowest1 :=
          if number_eqb n neg_zero && number_eqb lowest pos_zero
          then neg_zero else lowest in
        Math_min_from (if num_lt n lowest1 then n else lowest1) l'
  end.

Definition Math_min (l : list number) : number := Math_min_from pos_infinity l.

(** [Array.prototype.sort(comparefn)] on an array of numbers.  The sort is
    stable, and [comparefn x y > 0] places [x] after [y]; with a consistent
    comparator the result is the one of any stable sort, here an insertion
    sort. *)
Section ArraySort.

Variable comparefn : number -> number -> number.

Fixpoint sort_insert (x : number) (l : list number) : list number :=
  match l with
  | [] => [x]
  | y :: l' =>
      if num_gt (comparefn x y) pos_zero then y :: sort_insert x l'
      else x :: y :: l'
  end.

Definition Array_sort (l : list number) : list number :=
  fold_right sort_insert [] l.

End ArraySort.

(** ** Strings and numbers *)

Definition ascii_code (c : ascii) : Z := Z.of_nat (nat_of_ascii c).

Definition is_digit (c : ascii) : bool :=
  (48 <=? ascii_code c) && (ascii_code c <=? 57).

(** The ASCII members of StrWhiteSpaceChar: TAB, LF, VT, FF, CR, SP. *)
Definition is_white_space (c : ascii) : bool :=
  ((9 <=? ascii_code c) && (ascii_code c <=? 13)) || (ascii_code c =? 32).

Fixpoint drop_white_space (l : list ascii) : list ascii :=
  match l with
  | c :: l' => if is_white_space c then drop_white_space l' else l
  | [] => []
  end.

Definition String_trim (s : string) : string :=
  string_of_list_ascii
    (rev (drop_white_space (rev (drop_white_space (list_ascii_of_string s))))).

(** The decimal digits at the head of [s]: their value, their count, and
    the rest of the string. *)
Fixpoint scan_digits (s : string) (acc cnt : Z) : Z * Z * string :=
  match s with
  | String c s' =>
      if is_digit c then scan_digits s' (10 * acc + (ascii_code c - 48)) (cnt + 1)
      else (acc, cnt, s)
  | EmptyString => (acc, cnt, s)
  end.

(** The double nearest to [(+/-) d * 10^e10], for [0 <= d]. *)
Definition decimal_to_number (neg : bool) (d e10 : Z) : number :=
  match d with
  | Zpos p =>
      if 0 <=? e10 then int_to_number neg (cond_Zopp neg (d * 10 ^ e10))
      else num_div (S754_finite neg p 0)
                   (S754_finite false (Z.to_pos (10 ^ (- e10))) 0)
  | _ => S754_zero neg
  end.

(** An optional ExponentPart that must reach the end of the string. *)
Definition parse_exponent (s : string) : option Z :=
  match s with
  | EmptyString => Some 0
  | String c s' =>
      if (ascii_code c =? 101) || (ascii_code c =? 69) then
        let '(neg, s'') :=
          match s' with
          | String "+" r => (false, r)
          | String "-" r => (true, r)
          | _ => (false, s')
          end in
        let '(v, cnt, rest) := scan_digits s'' 0 0 in
        if (0 <? cnt) && String.eqb rest "" then Some (cond_Zopp neg v) else None
      else None
  end.

(** StrUnsignedDecimalLiteral. *)
Definition parse_unsigned_decimal (neg : bool) (s : string) : number :=
  if String.eqb s "Infinity" then S754_infinity neg
  else
    let '(v1, c1, r1) := scan_digits s 0 0 in
    let '(v2, c2, r2) :=
      match r1 with
      | String "." r => scan_digits r 0 0
      | _ => (0, 0, r1)
      end in
    if c1 + c2 =? 0 then NaN
    else
      match parse_exponent r2 with
      | Some e => decimal_to_number neg (v1 * 10 ^ c2 + v2) (e - c2)
      | None => NaN
      end.

Definition radix_digit (radix : Z) (c : ascii) : option Z :=
  let n := ascii_code c in
  let d :=
    if (48 <=? n) && (n <=? 57) then n - 48
    else if (97 <=? n) && (n <=? 102) then n - 87
    else if (65 <=? n) && (n <=? 70) then n - 55
    else radix in
  if d <? radix then Some d else None.

Fixpoint scan_radix (radix : Z) (s : string) (acc : Z) (seen : bool) : option Z :=
  match s with
  | EmptyString => if seen then Some acc else None
  | String c s' =>
      match radix_digit radix c with
      | Some d => scan_radix radix s' (radix * acc + d) true
      | None => None
      end
  end.

Definition parse_non_decimal (radix : Z) (s : string) : number :=
  match scan_radix radix s 0 false with
  | Some z => num_of_Z z
  | None => NaN
  end.

(** StringToNumber: white space is trimmed, the empty string is [+0], and
    anything that is not a StringNumericLiteral is [NaN]. *)
Definition StringToNumber (str : string) : number :=
  match String_trim str with
  | EmptyString => pos_zero
  | String "0" (String "x" r) | String "0" (String "X" r) => parse_non_decimal 16 r
  | String "0" (String "o" r) | String "0" (String "O" r) => parse_non_decimal 8 r
  | String "0" (String "b" r) | String "0" (String "B" r) => parse_non_decimal 2 r
  | String "+" r => parse_unsigned_decimal false r
  | String "-" r => parse_unsigned_decimal true r
  | s => parse_unsigned_decimal false s
  end.

Definition digits_of (z : Z) : string :=
  NilZero.string_of_uint (N.to_uint (Z.to_N z)).

Fixpoint zeros (n : nat) : string :=
  match n with
  | O => ""
  | S n' => String "0" (zeros n')
  end.

(** The least [n] at or above the starting one with [num / den < 10^n]. *)
Fixpoint decimal_exponent (fuel : nat) (num den n : Z) : Z :=
  match fuel with
  | O => n
  | S fuel' =>
      if (if 0 <=? n then num <? den * 10 ^ n else num * 10 ^ (- n) <? den)
      then n
      else decimal_exponent fuel' num den (n + 1)
  end.

(** Number::toString, step 5: integers [n], [k], [s] with [k] as small as
    possible, [10^(k-1) <= s < 10^k] and [s * 10^(n-k)] rounding to [x]; of
    two such [s] the one closer to [x], the even one on a tie.  [x] is
    [num / den], [10^(n0-1) <= x < 10^n0]. *)
Fixpoint shortest_digits (fuel : nat) (x : number) (num den n0 k : Z)
  : Z * Z * Z :=
  match fuel with
  | O => (n0, k, 0)
  | S fuel' =>
      let '(p, q) :=
        if n0 <=? k then (num * 10 ^ (k - n0), den)
        else (num, den * 10 ^ (n0 - k)) in
      let lo := p / q in
      let cand_lo := (n0, k, lo) in
      let cand_hi :=
        if lo + 1 =? 10 ^ k then (n0 + 1, k, 10 ^ (k - 1)) else (n0, k, lo + 1) in
      let ok '(n, k, s) := number_eqb (decimal_to_number false s (n - k)) x in
      match ok cand_lo, ok cand_hi with
      | true, true =>
          match 2 * p ?= (2 * lo + 1) * q with
          | Lt => cand_lo
          | Gt => cand_hi
          | Eq => if Z.even lo then cand_lo else cand_hi
          end
      | true, false => cand_lo
      | false, true => cand_hi
      | false, false => shortest_digits fuel' x num den n0 (k + 1)
      end
  end.

(** Number::toString, steps 6 to 10. *)
Definition format_digits (n k s : Z) : string :=
  let digits := digits_of s in
  if (k <=? n) && (n <=? 21) then digits ++ zeros (Z.to_nat (n - k))
  else if (0 <? n) && (n <=? 21) then
    substring 0 (Z.to_nat n) digits ++ "."
      ++ substring (Z.to_nat n) (Z.to_nat (k - n)) digits
  else if (-6 <? n) && (n <=? 0) then "0." ++ zeros (Z.to_nat (- n)) ++ digits
  else
    let e := n - 1 in
    let exponent := (if e <? 0 then "-" else "+") ++ digits_of (Z.abs e) in
    if k =? 1 then digits ++ "e" ++ exponent
    else
      substring 0 1 digits ++ "."
        ++ substring 1 (Z.to_nat (k - 1)) digits ++ "e" ++ exponent.

(** Number::toString in radix 10. *)
Definition Number_toString (x : number) : string :=
  match x with
  | S754_nan => "NaN"
  | S754_zero _ => "0"
  | S754_infinity s => if s then "-Infinity" else "Infinity"
  | S754_finite s m e =>
      let '(num, den) :=
        if 0 <=? e then (Zpos m * 2 ^ e, 1) else (Zpos m, 2 ^ (- e)) in
      let n0 := decimal_exponent 640 num den (-324) in
      let '(n, k, d) :=
        shortest_digits 17 (S754_finite false m e) num den n0 1 in
      (if s then "-" else "") ++ format_digits n k d
  end.

(** ** Exceptions *)

(** The two messages the engine raises with [new Error(...)]:
    "data must be an array" and "no valid data records". *)
Inductive message : Type :=
  | MustBeArray
  | NoValidRecords.

Inductive exn : Type :=
  | Error (msg : message)
  | TypeError.

Inductive result (A : Type) : Type :=
  | Ok (a : A)
  | Throw (e : exn).

Arguments Ok {A} a.
Arguments Throw {A} e.

Definition bind {A B : Type} (r : result A) (k : A -> result B) : result B :=
  match r with
  | Ok a => k a
  | Throw e => Throw e
  end.

Notation "x <- r ;; k" := (bind r (fun x => k))
  (at level 61, r at next level, right associativity).

Fixpoint mapM {A B : Type} (f : A -> result B) (l : list A) : result (list B) :=
  match l with
  | [] => Ok []
  | x :: l' => y <- f x ;; ys <- mapM f l' ;; Ok (y :: ys)
  end.

Fixpoint foldM {A S : Type} (f : S -> A -> result S) (l : list A) (s : S)
  : result S :=
  match l with
  | [] => Ok s
  | x :: l' => s' <- f s x ;; foldM f l' s'
  end.

(** [Array.prototype.every]: stops at the first [false]. *)
Fixpoint Array_every {A : Type} (p : A -> result bool) (l : list A) : result bool :=
  match l with
  | [] => Ok true
  | x :: l' => b <- p x ;; if b then Array_every p l' else Ok false
  end.

Fixpoint Array_filter {A : Type} (p : A -> result bool) (l : list A)
  : result (list A) :=
  match l with
  | [] => Ok []
  | x :: l' =>
      b <- p x ;; r <- Array_filter p l' ;; Ok (if b then x :: r else r)
  end.

(** ** Values *)

(** The loosely-typed payloads the engine receives: the values of parsed
    JSON, and [undefined].  Arrays and objects are references; [loc] is the
    identity of the reference, against which [Map] keys are compared.  The
    engine never writes to its input, so a reference carries its content. *)
Definition loc : Type := Z.

#[local] Set Warnings "-register-all".

Inductive value : Type :=
  | VUndefined
  | VNull
  | VBool (b : bool)
  | VNum (n : number)
  | VStr (s : string)
  | VArr (l : loc) (elems : list value)
  | VObj (l : loc) (props : list (string * value)).

Fixpoint lookup {A : Type} (k : string) (l : list (string * A)) : option A :=
  match l with
  | [] => None
  | (k', a) :: l' => if String.eqb k k' then Some a else lookup k l'
  end.

Definition has_own {A : Type} (k : string) (l : list (string * A)) : bool :=
  match lookup k l with Some _ => true | None => false end.

(** ToString.  An array is joined with commas, [null] and [undefined]
    elements giving the empty string.  A plain object inherits
    [Object.prototype.toString]; an own property of that name holds data,
    which is not callable, and the conversion throws. *)
Fixpoint ToString (v : value) : result string :=
  match v with
  | VUndefined => Ok "undefined"
  | VNull => Ok "null"
  | VBool b => Ok (if b then "true" else "false")
  | VNum n => Ok (Number_toString n)
  | VStr s => Ok s
  | VArr _ elems =>
      let element x :=
        match x with
        | VUndefined | VNull => Ok ""
        | _ => ToString x
        end in
      (fix join (l : list value) : result string :=
         match l with
         | [] => Ok ""
         | [x] => element x
         | x :: l' => s <- element x ;; r <- join l' ;; Ok (s ++ "," ++ r)
         end) elems
  | VObj _ props =>
      if has_own "toString" props then Throw TypeError else Ok "[object Object]"
  end.

(** ToNumber, the conversion [Number(v)] performs.  An array or an object is
    first converted to a primitive: the inherited [valueOf] returns the
    object itself, so the string conversion decides. *)
Definition ToNumber (v : value) : result number :=
  match v with
  | VUndefined => Ok NaN
  | VNull => Ok pos_zero
  | VBool b => Ok (if b then num_of_Z 1 else pos_zero)
  | VNum n => Ok n
  | VStr s => Ok (StringToNumber s)
  | VArr _ _ | VObj _ _ => s <- ToString v ;; Ok (StringToNumber s)
  end.

(** [Number.isFinite(v)]: no coercion, a value that is not a number is not
    finite. *)
Definition Number_isFinite (v : value) : bool :=
  match v with
  | VNum n => is_finite n
  | _ => false
  end.

(** The global [isNaN] applied to a number. *)
Definition isNaN (n : number) : bool := is_nan n.

(** An array index written canonically and below [len]. *)
Definition is_index (len : nat) (field : string) : bool :=
  existsb (fun i => String.eqb (digits_of (Z.of_nat i)) field) (seq 0 len).

(** The call [item.hasOwnProperty(field)].  Reading the method from [null]
    or [undefined] throws; a primitive is boxed; an object whose own
    property [hasOwnProperty] shadows the inherited method holds data there,
    and calling it throws. *)
Definition hasOwnProperty (item : value) (field : string) : result bool :=
  match item with
  | VUndefined | VNull => Throw TypeError
  | VBool _ | VNum _ => Ok false
  | VStr s => Ok (String.eqb field "length" || is_index (String.length s) field)
  | VArr _ elems => Ok (String.eqb field "length" || is_index (List.length elems) field)
  | VObj _ props =>
      if has_own "hasOwnProperty" props then Throw TypeError
      else Ok (has_own field props)
  end.

(** [item[field]] for an own property of an object; [undefined] otherwise.
    The engine reads the fields of an item behind the own-property test,
    which the six field names pass on objects only. *)
Definition Get (item : value) (field : string) : value :=
  match item with
  | VObj _ props =>
      match lookup field props with
      | Some v => v
      | None => VUndefined
      end
  | _ => VUndefined
  end.

Definition is_null (v : value) : bool :=
  match v with VNull => true | _ => false end.

Definition is_undefined (v : value) : bool :=
  match v with VUndefined => true | _ => false end.

(** [values.length], and [values[i]] ([undefined] out of range). *)
Definition Array_length {A : Type} (l : list A) : Z := Z.of_nat (List.length l).

Definition Array_get (l : list number) (i : Z) : value :=
  if i <? 0 then VUndefined
  else
    match nth_error l (Z.to_nat i) with
    | Some n => VNum n
    | None => VUndefined
    end.

(** ** Precision Arithmetic *)

Definition default_precision : nat := 6.

Module precisionHelper.

(** [typeof num !== 'number' || !Number.isFinite(num)] returns [0]. *)
Definition round (num : value) (precision : nat) : number :=
  match num with
  | VNum n =>
      if negb (is_finite n) then pos_zero
      else
        num_div (Math_round (num_mul n (Math_pow10 precision)))
                (Math_pow10 precision)
  | _ => pos_zero
  end.

(** [if (!Number.isFinite(a)) a = 0]. *)
Definition finite_or_zero (a : value) : number :=
  match a with
  | VNum n => if is_finite n then n else pos_zero
  | _ => pos_zero
  end.

Definition add (a b : value) : number :=
  let a := finite_or_zero a in
  let b := finite_or_zero b in
  round (VNum (num_add a b)) default_precision.

Definition divide (a b : value) : number :=
  match a, b with
  | VNum x, VNum y =>
      if negb (is_finite x) || negb (is_finite y) || num_eq y pos_zero
      then pos_zero
      else round (VNum (num_div x y)) default_precision
  | _, _ => pos_zero
  end.

End precisionHelper.

(** ** Statistical Summarizer *)

Module statsCalculators.

Definition sum (values : list number) : number :=
  fold_left (fun acc val => precisionHelper.add (VNum acc) (VNum val))
            values pos_zero.

Definition mean (values : list number) : number :=
  if Array_length values =? 0 then pos_zero
  else precisionHelper.divide (VNum (sum values))
                              (VNum (num_of_Z (Array_length values))).

Definition max (values : list number) : number :=
  if Array_length values =? 0 then pos_zero
  else Math_max (filter is_finite values).

Definition min (values : list number) : number :=
  if Array_length values =? 0 then pos_zero
  else Math_min (filter is_finite values).

(** In the odd branch [mid] is within [sorted], so [sorted[mid]] is a
    number. *)
Definition median (values : list number) : number :=
  if Array_length values =? 0 then pos_zero
  else
    let sorted := Array_sort (fun a b => num_sub a b) (filter is_finite values) in
    let mid := Array_length sorted / 2 in
    if Array_length sorted mod 2 =? 0
    then precisionHelper.divide
           (VNum (precisionHelper.add (Array_get sorted (mid - 1))
                                      (Array_get sorted mid)))
           (VNum (num_of_Z 2))
    else nth (Z.to_nat mid) sorted NaN.

End statsCalculators.

Record Summary : Type := mkSummary {
  sum : number;
  mean : number;
  max : number;
  min : number;
  median : number;
  count : Z
}.

Definition createStatsSummary (values : list number) : Summary :=
  {| sum := statsCalculators.sum values;
     mean := statsCalculators.mean values;
     max := statsCalculators.max values;
     min := statsCalculators.min values;
     median := statsCalculators.median values;
     count := Array_length values |}.

(** ** Record Validator *)

Definition requiredFields : list string :=
  ["id"; "region"; "resource"; "year"; "value"; "weight"].

Definition numericFields : list string := ["year"; "value"; "weight"].

Definition validRecord (item : value) : result bool :=
  hasAllFields <-
    Array_every
      (fun field =>
         own <- hasOwnProperty item field ;;
         Ok (own && negb (is_null (Get item field))
                 && negb (is_undefined (Get item field))))
      requiredFields ;;
  if negb hasAllFields then Ok false
  else
    Array_every
      (fun field =>
         val <- ToNumber (Get item field) ;;
         Ok (Number_isFinite (VNum val) && negb (isNaN val)))
      numericFields.

(** [Array.isArray(data)] holds of the arrays only. *)
Definition validateAndCleanData (data : value) : result (list value) :=
  match data with
  | VArr _ items => Array_filter validRecord items
  | _ => Throw (Error MustBeArray)
  end.

(** ** Grouping Index *)

(** SameValueZero, the equality of [Map] keys: [NaN] equals itself, [+0]
    equals [-0], references are compared by identity. *)
Definition SameValueZero (x y : value) : bool :=
  match x, y with
  | VUndefined, VUndefined => true
  | VNull, VNull => true
  | VBool a, VBool b => Bool.eqb a b
  | VNum a, VNum b => (is_nan a && is_nan b) || num_eq a b
  | VStr a, VStr b => String.eqb a b
  | VArr l1 _, VArr l2 _ => Z.eqb l1 l2
  | VObj l1 _, VObj l2 _ => Z.eqb l1 l2
  | _, _ => false
  end.

(** A [Map]: its entries in insertion order. *)
Definition Map (V : Type) : Type := list (value * V).

Fixpoint Map_has {V : Type} (m : Map V) (key : value) : bool :=
  match m with
  | [] => false
  | (k, _) :: m' => SameValueZero k key || Map_has m' key
  end.

(** [m.set(key, v)]: a present key keeps its place. *)
Fixpoint Map_set {V : Type} (m : Map V) (key : value) (v : V) : Map V :=
  match m with
  | [] => [(key, v)]
  | (k, w) :: m' =>
      if SameValueZero k key then (k, v) :: m' else (k, w) :: Map_set m' key v
  end.

(** [m.get(key).push(x)]: the array stored under [key] grows in place. *)
Fixpoint Map_push {A : Type} (m : Map (list A)) (key : value) (x : A)
  : Map (list A) :=
  match m with
  | [] => []
  | (k, w) :: m' =>
      if SameValueZero k key then (k, (w ++ [x])%list) :: m'
      else (k, w) :: Map_push m' key x
  end.

Definition performantGroupBy (data : list value)
    (keyExtractor : value -> result value) : result (Map (list value)) :=
  foldM
    (fun groups item =>
       key <- keyExtractor item ;;
       let groups :=
         if negb (Map_has groups key) then Map_set groups key [] else groups in
       Ok (Map_push groups key item))
    data [].

(** ** Results *)

(** A result object: its own properties in creation order.  Assigning to a
    present property keeps its place.  Properties inherited from
    [Object.prototype] are not part of it. *)
Definition object (A : Type) : Type := list (string * A).

Fixpoint object_set {A : Type} (o : object A) (k : string) (a : A) : object A :=
  match o with
  | [] => [(k, a)]
  | (k', a') :: o' =>
      if String.eqb k' k then (k', a) :: o' else (k', a') :: object_set o' k a
  end.

(** ToPropertyKey of a property name that is not a symbol. *)
Definition ToPropertyKey (v : value) : result string := ToString v.

Record WeightSummary : Type := mkWeightSummary {
  weight_max : number;
  weight_min : number;
  weight_median : number
}.

Record AggregateResult : Type := mkAggregateResult {
  byRegion : object Summary;
  byRegionAndYear : object (object Summary);
  byResource : object Summary;
  globalWeight : WeightSummary
}.

Record StreamResult : Type := mkStreamResult {
  stream_byRegion : object Summary;
  stream_byResource : object Summary;
  stream_globalWeight : WeightSummary
}.

(** [str.split(sep)] for a separator of one character. *)
Fixpoint String_split (sep : ascii) (s : string) : list string :=
  match s with
  | EmptyString => [""]
  | String c s' =>
      if Ascii.eqb c sep then "" :: String_split sep s'
      else
        match String_split sep s' with
        | [] => [String c ""]
        | part :: parts => String c part :: parts
        end
  end.

(** ** Batch Aggregator *)

(** [items.map(item => Number(item[field]))]. *)
Definition numbersOf (field : string) (items : list value) : result (list number) :=
  mapM (fun item => ToNumber (Get item field)) items.

(** The loop [for (const [k, items] of groups) results[k] = summary]. *)
Definition summarizeGroups (groups : Map (list value)) : result (object Summary) :=
  foldM
    (fun results '(k, items) =>
       values <- numbersOf "value" items ;;
       key <- ToPropertyKey k ;;
       Ok (object_set results key (createStatsSummary values)))
    groups [].

(** The template literal [`${item.region}|${item.year}`]. *)
Definition regionYearKey (item : value) : result value :=
  region <- ToString (Get item "region") ;;
  year <- ToString (Get item "year") ;;
  Ok (VStr (region ++ "|" ++ year)).

(** [const [region, year] = key.split('|')]: the first two parts, a missing
    one being [undefined]. *)
Definition splitKey (key : string) : value * value :=
  let parts := String_split "|" key in
  let part i :=
    match nth_error parts i with
    | Some s => VStr s
    | None => VUndefined
    end in
  (part 0%nat, part 1%nat).

Definition summarizeRegionYearGroups (groups : Map (list value))
  : result (object (object Summary)) :=
  foldM
    (fun results '(k, items) =>
       key <- ToString k ;;
       let '(region, year) := splitKey key in
       region <- ToPropertyKey region ;;
       let results :=
         if negb (has_own region results) then object_set results region []
         else results in
       values <- numbersOf "value" items ;;
       year <- ToPropertyKey year ;;
       let inner :=
         match lookup region results with
         | Some o => o
         | None => []
         end in
       Ok (object_set results region
             (object_set inner year (createStatsSummary values))))
    groups [].

Definition weightSummary (weights : list number) : WeightSummary :=
  {| weight_max := statsCalculators.max weights;
     weight_min := statsCalculators.min weights;
     weight_median := statsCalculators.median weights |}.

Definition calculateStatistics (rawData : value) : result AggregateResult :=
  cleanData <- validateAndCleanData rawData ;;
  if Array_length cleanData =? 0 then Throw (Error NoValidRecords)
  else
    regionGroups <- performantGroupBy cleanData (fun item => Ok (Get item "region")) ;;
    byRegion <- summarizeGroups regionGroups ;;
    regionYearGroups <- performantGroupBy cleanData regionYearKey ;;
    byRegionAndYear <- summarizeRegionYearGroups regionYearGroups ;;
    resourceGroups <- performantGroupBy cleanData (fun item => Ok (Get item "resource")) ;;
    byResource <- summarizeGroups resourceGroups ;;
    allWeights <- numbersOf "weight" cleanData ;;
    Ok {| byRegion := byRegion;
          byRegionAndYear := byRegionAndYear;
          byResource := byResource;
          globalWeight := weightSummary allWeights |}.

(** ** Streaming Aggregator *)

Record StreamStats : Type := mkStreamStats {
  stats_byRegion : Map (list number);
  stats_byRegionAndYear : Map (list number);
  stats_byResource : Map (list number);
  stats_weights : list number;
  processedCount : Z
}.

Definition initialStats : StreamStats :=
  {| stats_byRegion := [];
     stats_byRegionAndYear := [];
     stats_byResource := [];
     stats_weights := [];
     processedCount := 0 |}.

Definition weightThreshold : Z := 100000.

(** The body of [for (const item of cleanChunk)]. *)
Definition processItem (stats : StreamStats) (item : value) : result StreamStats :=
  value <- ToNumber (Get item "value") ;;
  weight <- ToNumber (Get item "weight") ;;
  let region := Get item "region" in
  let byRegion :=
    if negb (Map_has (stats_byRegion stats) region)
    then Map_set (stats_byRegion stats) region []
    else stats_byRegion stats in
  let byRegion := Map_push byRegion region value in
  let resource := Get item "resource" in
  let byResource :=
    if negb (Map_has (stats_byResource stats) resource)
    then Map_set (stats_byResource stats) resource []
    else stats_byResource stats in
  let byResource := Map_push byResource resource value in
  Ok {| stats_byRegion := byRegion;
        stats_byRegionAndYear := stats_byRegionAndYear stats;
        stats_byResource := byResource;
        stats_weights := (stats_weights stats ++ [weight])%list;
        processedCount := processedCount stats + 1 |}.

Definition processItems (stats : StreamStats) (cleanChunk : list value)
  : result StreamStats :=
  foldM processItem cleanChunk stats.

(** The memory management step that follows the items of a chunk. *)
Definition compactWeights (stats : StreamStats) : StreamStats :=
  if weightThreshold <? Array_length (stats_weights stats) then
    let sorted := Array_sort (fun a b => num_sub a b) (stats_weights stats) in
    let median := statsCalculators.median sorted in
    {| stats_byRegion := stats_byRegion stats;
       stats_byRegionAndYear := stats_byRegionAndYear stats;
       stats_byResource := stats_byResource stats;
       stats_weights := [median];
       processedCount := processedCount stats |}
  else stats.

(** The body of [for await (const chunk of dataStream)]. *)
Definition processChunk (stats : StreamStats) (chunk : value) : result StreamStats :=
  cleanChunk <- validateAndCleanData chunk ;;
  stats <- processItems stats cleanChunk ;;
  Ok (compactWeights stats).

(** The final loops [for (const [k, values] of m) results[k] = summary]. *)
Definition summarizeBuffers (buffers : Map (list number)) : result (object Summary) :=
  foldM
    (fun results '(k, values) =>
       key <- ToPropertyKey k ;;
       Ok (object_set results key (createStatsSummary values)))
    buffers [].

Definition finalizeStream (stats : StreamStats) : result StreamResult :=
  let globalWeight := weightSummary (stats_weights stats) in
  byRegion <- summarizeBuffers (stats_byRegion stats) ;;
  byResource <- summarizeBuffers (stats_byResource stats) ;;
  Ok {| stream_byRegion := byRegion;
        stream_byResource := byResource;
        stream_globalWeight := globalWeight |}.

(** The stream is the sequence of the chunks it yields. *)
Definition calculateStatisticsStream (dataStream : list value) : result StreamResult :=
  stats <- foldM processChunk dataStream initialStats ;;
  finalizeStream stats.

(** ** Notions used in the statements *)

(** A decimal literal of the source, read as the engine reads it. *)
Definition literal (s : string) : number := StringToNumber s.

(** A record with the six required fields. *)
Definition mkRecord (l : loc) (id region resource year val weight : value) : value :=
  VObj l [("id", id); ("region", region); ("resource", resource);
          ("year", year); ("value", val); ("weight", weight)].

Definition goodRecord : value :=
  mkRecord 1 (VStr "1") (VStr "Asia") (VStr "Cereals")
           (VNum (literal "2020")) (VNum (literal "100")) (VNum (literal "50")).


Definition barRecord2021 : value :=
  mkRecord 2 (VStr "2") (VStr "a|b") (VStr "Cereals")
           (VNum (literal "2021")) (VNum (literal "200")) (VNum (literal "75")).

(** Records whose numeric fields are not numbers: an empty string, an empty
    array, a boolean, a numeric string. *)
Definition coercedRecord : value :=
  mkRecord 1 (VStr "1") (VStr "Asia") (VStr "Cereals")
           (VStr "2020") (VStr "") (VArr 9 []).

Definition coercedRecord' : value :=
  mkRecord 2 (VStr "2") (VStr "Asia") (VStr "Cereals")
           (VBool true) (VStr " 10 ") (VBool false).


(** The field of a record is an own property, neither [null] nor
    [undefined]. *)
Definition present (item : value) (field : string) : Prop :=
  hasOwnProperty item field = Ok true
  /\ is_null (Get item field) = false
  /\ is_undefined (Get item field) = false.

(** The field of a record coerces to a finite number. *)
Definition coercible (item : value) (field : string) : Prop :=
  exists n, ToNumber (Get item field) = Ok n /\ is_finite n = true.

(** The two statements [if (!m.has(key)) m.set(key, [])] and
    [m.get(key).push(x)] that both aggregators run per record. *)
Definition pushKey {A : Type} (m : Map (list A)) (key : value) (x : A)
  : Map (list A) :=
  Map_push (if negb (Map_has m key) then Map_set m key [] else m) key x.

(** The number a validated record holds in a numeric field. *)
Definition numberOf (field : string) (item : value) : number :=
  match ToNumber (Get item field) with
  | Ok n => n
  | Throw _ => NaN
  end.

(** The per-group value buffers after the records [items]. *)
Definition bufferBy (field : string) (items : list value)
    (m : Map (list number)) : Map (list number) :=
  fold_left (fun m item => pushKey m (Get item field) (numberOf "value" item))
            items m.

Definition Map_map {A B : Type} (f : A -> B) (m : Map (list A)) : Map (list B) :=
  map (fun '(k, l) => (k, map f l)) m.

Definition validRecords (items : list value) : Prop :=
  Forall (fun item => validRecord item = Ok true) items.

(** A stream whose chunks are the arrays [chunks]. *)
Definition streamOf (chunks : list (loc * list value)) : list value :=
  map (fun '(l, items) => VArr l items) chunks.

Definition recordsOf (chunks : list (loc * list value)) : list value :=
  List.concat (map snd chunks).

(** A chunk of 100001 valid records. *)
Definition burst : list value := repeat goodRecord (Z.to_nat 100001).

(** The groups of the batch index after the records [items]. *)
Definition groupsBy (field : string) (items : list value)
    (m : Map (list value)) : Map (list value) :=
  fold_left (fun m item => pushKey m (Get item field) item) items m.

Definition validGroups (m : Map (list value)) : Prop :=
  Forall (fun entry => validRecords (snd entry)) m.

(** The same four elements, three of them valid records, cut in two ways. *)
Definition sampleChunks : list (loc * list value) :=
  [(10, [goodRecord; VStr "junk"]); (11, [coercedRecord'; barRecord2021])].

Definition sampleChunks' : list (loc * list value) :=
  [(12, [goodRecord]); (13, [VStr "junk"; coercedRecord']); (14, []);
   (15, [barRecord2021])].

(** A positive mantissa is rounded to a finite number or an infinity of the
    sign asked for: never to a zero, never to [NaN]. *)
Definition signed_nonzero (s : bool) (x : number) : Prop :=
  (exists m e, x = S754_finite s m e) \/ x = S754_infinity s.

(** [a <= b] on numbers. *)
Definition num_le : number -> number -> bool := SFleb.

(** The same number up to the sign of a zero: what [===] cannot tell
    apart. *)
Definition same_number (x y : number) : Prop :=
  x = y \/ (is_zero x = true /\ is_zero y = true).

(** A finite double. *)
Definition finite_double (x : number) : Prop :=
  is_finite x = true /\ valid_number x.

(** The order of finite numbers read on three integers: the sign, then the
    exponent and the mantissa, both negated below zero. *)
Definition order_key (x : number) : Z * Z * Z :=
  match x with
  | S754_finite false m e => (1, e, Zpos m)
  | S754_finite true m e => (-1, - e, - Zpos m)
  | _ => (0, 0, 0)
  end.

Definition key_le (a b : Z * Z * Z) : Prop :=
  let '(a1, a2, a3) := a in
  let '(b1, b2, b3) := b in
  a1 < b1 \/ (a1 = b1 /\ (a2 < b2 \/ (a2 = b2 /\ a3 <= b3))).

(** A zero without its sign. *)
Definition unsigned_zero (x : number) : number :=
  if is_zero x then pos_zero else x.

Definition ascending (l : list number) : Prop :=
  StronglySorted (fun a b => num_le a b = true) l.

(** [sorted] in [median]: the finite entries after [sort((a, b) => a - b)]. *)
Definition sortedFinite (values : list number) : list number :=
  Array_sort (fun a b => num_sub a b) (filter is_finite values).

(** The integer a finite number is, when it is one. *)
Definition integer_of (x : number) : option Z :=
  match x with
  | S754_zero _ => Some 0
  | S754_finite s m e =>
      if 0 <=? e then Some (cond_Zopp s (Zpos m) * 2 ^ e)
      else if Zpos m mod 2 ^ (- e) =? 0
           then Some (cond_Zopp s (Zpos m) / 2 ^ (- e))
           else None
  | _ => None
  end.

(** A finite number as an exact fraction, with a positive denominator. *)
Definition fraction_of (x : number) : Z * Z :=
  match x with
  | S754_finite s m e =>
      if 0 <=? e then (cond_Zopp s (Zpos m) * 2 ^ e, 1)
      else (cond_Zopp s (Zpos m), 2 ^ (- e))
  | _ => (0, 1)
  end.

(** [n] is the integer nearest to the fraction, the larger of the two when
    the fraction is halfway: [n - 1/2 <= num / den < n + 1/2]. *)
Definition nearest_half_up (fraction : Z * Z) (n : Z) : Prop :=
  let '(num, den) := fraction in
  (2 * n - 1) * den <= 2 * num < (2 * n + 1) * den.

(** The record passes the validator's test. *)
Definition retained (item : value) : bool :=
  match validRecord item with
  | Ok true => true
  | _ => false
  end.

(** * Properties *)

(** ** Helper lemmas on the result monad *)

Lemma bind_Ok {A B : Type} (r : result A) (k : A -> result B) (b : B) :
  bind r k = Ok b -> exists a, r = Ok a /\ k a = Ok b.
Proof.
  destruct r as [a | e]; simpl; intros H.
  - exists a. split; [reflexivity | exact H].
  - discriminate H.
Qed.

Ltac inv_bind H :=
  let a := fresh "a" in
  let Ha := fresh "Ha" in
  apply bind_Ok in H; destruct H as [a [Ha H]].

Lemma Array_filter_app {A : Type} (p : A -> result bool) (l1 l2 : list A) (c : list A) :
  Array_filter p (l1 ++ l2)%list = Ok c <->
  exists c1 c2, Array_filter p l1 = Ok c1 /\ Array_filter p l2 = Ok c2
                /\ c = (c1 ++ c2)%list.
Proof.
  revert c. induction l1 as [| x l1 IH]; intros c; simpl.
  - split.
    + intros H. exists [], c. auto.
    + intros [c1 [c2 [H1 [H2 H3]]]]. inversion H1; subst. exact H2.
  - split.
    + intros H. inv_bind H. inv_bind H. inversion H; subst; clear H.
      apply IH in Ha0. destruct Ha0 as [c1 [c2 [H1 [H2 H3]]]].
      rewrite Ha, H1. simpl. subst a0.
      exists (if a then x :: c1 else c1), c2.
      destruct a; auto.
    + intros [c1 [c2 [H1 [H2 H3]]]].
      inv_bind H1. inv_bind H1. inversion H1; subst; clear H1.
      rewrite Ha. simpl.
      assert (Hc : Array_filter p (l1 ++ l2)%list = Ok (a0 ++ c2)%list).
      { apply IH. exists a0, c2. auto. }
      rewrite Hc. simpl. destruct a; reflexivity.
Qed.

Lemma Array_filter_Forall {A : Type} (p : A -> result bool) (l c : list A) :
  Array_filter p l = Ok c -> Forall (fun x => p x = Ok true) c.
Proof.
  revert c. induction l as [| x l IH]; intros c H; simpl in H.
  - inversion H. constructor.
  - inv_bind H. inv_bind H. inversion H; subst; clear H.
    destruct a.
    + constructor; [exact Ha | apply IH; exact Ha0].
    + apply IH; exact Ha0.
Qed.

(** What the validator has checked on a retained record. *)
Lemma validRecord_numbers (item : value) :
  validRecord item = Ok true ->
  forall field, In field numericFields ->
    exists n, ToNumber (Get item field) = Ok n /\ is_finite n = true.
Proof.
  unfold validRecord. intros H. inv_bind H.
  destruct a; simpl in H; [| discriminate H].
  unfold numericFields in *.
  cbn [Array_every] in H.
  inv_bind H.
  destruct a; [| discriminate H].
  inv_bind H.
  destruct a; [| discriminate H].
  inv_bind H.
  destruct a; [| discriminate H].
  clear H.
  inv_bind Ha0. inv_bind Ha1. inv_bind Ha2.
  assert (E0 : is_finite a && negb (isNaN a) = true) by congruence.
  assert (E1 : is_finite a0 && negb (isNaN a0) = true) by congruence.
  assert (E2 : is_finite a1 && negb (isNaN a1) = true) by congruence.
  apply andb_prop in E0, E1, E2.
  intros field [<- | [<- | [<- | []]]]; eexists; split; try eassumption; tauto.
Qed.

Lemma Array_every_true {A : Type} (p : A -> result bool) (l : list A) :
  Forall (fun x => p x = Ok true) l -> Array_every p l = Ok true.
Proof.
  induction 1 as [| x l Hx Hl IH]; simpl.
  - reflexivity.
  - rewrite Hx. simpl. exact IH.
Qed.

Lemma validRecord_intro (item : value) :
  Forall (present item) requiredFields ->
  Forall (coercible item) numericFields ->
  validRecord item = Ok true.
Proof.
  intros Hreq Hnum. unfold validRecord.
  rewrite Array_every_true.
  - cbn [bind negb]. apply Array_every_true.
    eapply Forall_impl; [| exact Hnum].
    intros field [n [Hn Hfin]]. rewrite Hn. simpl. unfold isNaN.
    rewrite Hfin. destruct n; simpl in *; congruence.
  - eapply Forall_impl; [| exact Hreq].
    intros field [Hown [Hnull Hundef]]. rewrite Hown. simpl.
    rewrite Hnull, Hundef. reflexivity.
Qed.

(** ** What the validator and the batch aggregator do when nothing throws *)

(** The retained records are the records that pass the test, in their
    original order. *)
Lemma validateAndCleanData_order (a : loc) (items clean : list value) :
  validateAndCleanData (VArr a items) = Ok clean -> clean = filter retained items.
Proof.
  cbn [validateAndCleanData]. revert clean.
  induction items as [| item items IH]; intros clean H; simpl in H.
  - inversion H. reflexivity.
  - apply bind_Ok in H. destruct H as [b [Hb H]].
    apply bind_Ok in H. destruct H as [r [Hr H]].
    inversion H; subst clean; clear H.
    simpl. unfold retained at 1. rewrite Hb. rewrite (IH r Hr).
    destruct b; reflexivity.
Qed.

Lemma calculateStatistics_failures (data : value) :
  (validateAndCleanData data = Ok [] ->
   calculateStatistics data = Throw (Error NoValidRecords))
  /\ (forall e, validateAndCleanData data = Throw e ->
                calculateStatistics data = Throw e).
Proof.
  unfold calculateStatistics. split.
  - intros H. rewrite H. reflexivity.
  - intros e H. rewrite H. reflexivity.
Qed.

(** ** The validator on [null] elements *)

(** C2: an array that holds [null] (or [undefined]) makes the validator
    raise a TypeError: reading [hasOwnProperty] from the element throws
    before anything is dropped. *)
Theorem validateAndCleanData_null_element :
  validateAndCleanData (VArr 0 [VNull]) = Throw TypeError
  /\ validateAndCleanData (VArr 0 [VUndefined]) = Throw TypeError
  /\ validateAndCleanData (VArr 0 [goodRecord; VNull]) = Throw TypeError
  /\ validateAndCleanData (VArr 0 [goodRecord]) = Ok [goodRecord].
Proof. repeat split; vm_compute; reflexivity. Qed.

(** C6: on the array [[null, goodRecord]], whose second record survives
    validation on its own, the batch aggregator returns no result and raises
    a TypeError; on [[null]] it raises the TypeError too, not the "no valid
    records" condition. *)
Theorem calculateStatistics_null_element :
  validateAndCleanData (VArr 0 [goodRecord]) = Ok [goodRecord]
  /\ calculateStatistics (VArr 0 [VNull; goodRecord]) = Throw TypeError
  /\ calculateStatistics (VArr 0 [VNull]) = Throw TypeError
  /\ calculateStatistics (VArr 0 []) = Throw (Error NoValidRecords)
  /\ calculateStatistics VNull = Throw (Error MustBeArray).
Proof. repeat split; vm_compute; reflexivity. Qed.

(** ** Coerced numeric fields *)

Lemma validateAndCleanData_retains (a : loc) (before after clean : list value)
    (item : value) :
  validRecord item = Ok true ->
  validateAndCleanData (VArr a (before ++ item :: after)%list) = Ok clean ->
  In item clean.
Proof.
  intros Hvalid H. simpl in H.
  apply Array_filter_app in H. destruct H as [c1 [c2 [_ [H2 ->]]]].
  simpl in H2. rewrite Hvalid in H2. simpl in H2.
  inv_bind H2. inversion H2; subst.
  apply in_or_app. right. left. reflexivity.
Qed.

(** C10: a record whose six fields are present and whose [year], [value]
    and [weight] coerce to finite numbers under [Number] is retained,
    whatever the types of those fields; the empty string and the empty
    array coerce to 0, [true] to 1, a numeric string to its number; and the
    aggregators use the coerced numbers: a [value] of [""] contributes 0 to
    the statistics of its group. *)
Theorem validator_retains_coerced_fields :
  (forall (a : loc) (before after clean : list value) (item : value),
      Forall (present item) requiredFields ->
      Forall (coercible item) numericFields ->
      validateAndCleanData (VArr a (before ++ item :: after)%list) = Ok clean ->
      In item clean)
  /\ ToNumber (VStr "") = Ok pos_zero
  /\ ToNumber (VArr 9 []) = Ok pos_zero
  /\ ToNumber (VBool true) = Ok (num_of_Z 1)
  /\ ToNumber (VBool false) = Ok pos_zero
  /\ ToNumber (VStr "2020") = Ok (num_of_Z 2020)
  /\ ToNumber (VStr " 10 ") = Ok (num_of_Z 10)
  /\ validateAndCleanData (VArr 0 [coercedRecord; coercedRecord'])
     = Ok [coercedRecord; coercedRecord']
  /\ exists r,
       calculateStatistics (VArr 0 [coercedRecord; coercedRecord']) = Ok r
       /\ byRegion r = [("Asia", createStatsSummary [pos_zero; num_of_Z 10])]
       /\ sum (createStatsSummary [pos_zero; num_of_Z 10]) = num_of_Z 10
       /\ min (createStatsSummary [pos_zero; num_of_Z 10]) = pos_zero
       /\ mean (createStatsSummary [pos_zero; num_of_Z 10]) = num_of_Z 5
       /\ globalWeight r = weightSummary [pos_zero; pos_zero].
Proof.
  split.
  { intros a before after clean item Hreq Hnum.
    apply validateAndCleanData_retains.
    apply validRecord_intro; assumption. }
  repeat split; try (vm_compute; reflexivity).
  eexists. repeat split; vm_compute; reflexivity.
Qed.

Lemma validator_retains_coerced_fields_witness :
  In coercedRecord [coercedRecord; coercedRecord'].
Proof.
  apply (proj1 validator_retains_coerced_fields 0 [] [coercedRecord']
               [coercedRecord; coercedRecord'] coercedRecord).
  - repeat constructor.
  - repeat constructor; eexists; split; vm_compute; reflexivity.
  - vm_compute. reflexivity.
Defined.

(** ** Region-by-year keys *)







(** ** The streaming state *)

Lemma Array_filter_valid {A : Type} (p : A -> result bool) (l : list A) :
  Forall (fun x => p x = Ok true) l -> Array_filter p l = Ok l.
Proof.
  induction 1 as [| x l Hx Hl IH]; simpl.
  - reflexivity.
  - rewrite Hx, IH. reflexivity.
Qed.

Lemma Array_filter_length {A : Type} (p : A -> result bool) (l c : list A) :
  Array_filter p l = Ok c -> Array_length c <= Array_length l.
Proof.
  unfold Array_length. revert c.
  induction l as [| x l IH]; intros c H; simpl in H.
  - inversion H. simpl. lia.
  - inv_bind H. inv_bind H. inversion H; subst; clear H.
    specialize (IH _ Ha0). destruct a; simpl List.length; lia.
Qed.

Lemma numbersOf_valid (field : string) (items : list value) :
  In field numericFields -> validRecords items ->
  numbersOf field items = Ok (map (numberOf field) items).
Proof.
  intros Hf. unfold numbersOf, validRecords.
  induction 1 as [| item items Hitem Hitems IH]; simpl.
  - reflexivity.
  - destruct (validRecord_numbers item Hitem field Hf) as [n [Hn _]].
    unfold numberOf at 1. rewrite Hn, IH. reflexivity.
Qed.

Lemma processItem_valid (stats : StreamStats) (item : value) :
  validRecord item = Ok true ->
  processItem stats item =
  Ok {| stats_byRegion :=
          pushKey (stats_byRegion stats) (Get item "region") (numberOf "value" item);
        stats_byRegionAndYear := stats_byRegionAndYear stats;
        stats_byResource :=
          pushKey (stats_byResource stats) (Get item "resource") (numberOf "value" item);
        stats_weights := (stats_weights stats ++ [numberOf "weight" item])%list;
        processedCount := processedCount stats + 1 |}.
Proof.
  intros Hvalid. unfold processItem, numberOf.
  destruct (validRecord_numbers item Hvalid "value") as [v [Hv _]];
    [simpl; tauto |].
  destruct (validRecord_numbers item Hvalid "weight") as [w [Hw _]];
    [simpl; tauto |].
  rewrite Hv, Hw. reflexivity.
Qed.

Lemma processItems_valid (items : list value) (stats : StreamStats) :
  validRecords items ->
  processItems stats items =
  Ok {| stats_byRegion := bufferBy "region" items (stats_byRegion stats);
        stats_byRegionAndYear := stats_byRegionAndYear stats;
        stats_byResource := bufferBy "resource" items (stats_byResource stats);
        stats_weights :=
          (stats_weights stats ++ map (numberOf "weight") items)%list;
        processedCount := processedCount stats + Array_length items |}.
Proof.
  unfold processItems, validRecords, Array_length. intros H. revert stats.
  induction H as [| item items Hitem Hitems IH]; intros stats.
  - simpl. rewrite app_nil_r, Z.add_0_r. destruct stats; reflexivity.
  - cbn [foldM]. rewrite (processItem_valid stats item Hitem). cbn [bind].
    rewrite IH. cbn [stats_byRegion stats_byResource stats_weights
                     stats_byRegionAndYear processedCount].
    rewrite <- app_assoc. cbn [app map bufferBy fold_left List.length].
    do 2 f_equal. lia.
Qed.

(** A chunk reaches the items loop with validated records only. *)
Lemma validateAndCleanData_valid (data : value) (clean : list value) :
  validateAndCleanData data = Ok clean -> validRecords clean.
Proof.
  destruct data; simpl; try discriminate.
  apply Array_filter_Forall.
Qed.

Lemma compactWeights_length (stats : StreamStats) :
  Array_length (stats_weights (compactWeights stats)) <= weightThreshold.
Proof.
  unfold compactWeights.
  destruct (weightThreshold <? Array_length (stats_weights stats)) eqn:E.
  - unfold weightThreshold, Array_length. simpl. lia.
  - apply Z.ltb_ge in E. exact E.
Qed.

Lemma processChunk_length (stats stats' : StreamStats) (chunk : value) :
  processChunk stats chunk = Ok stats' ->
  Array_length (stats_weights stats') <= weightThreshold.
Proof.
  unfold processChunk. intros H. inv_bind H. inv_bind H.
  inversion H; subst. apply compactWeights_length.
Qed.

Lemma foldM_processChunk_length (dataStream : list value) (stats0 stats : StreamStats) :
  Array_length (stats_weights stats0) <= weightThreshold ->
  foldM processChunk dataStream stats0 = Ok stats ->
  Array_length (stats_weights stats) <= weightThreshold.
Proof.
  revert stats0. induction dataStream as [| chunk rest IH]; intros stats0 H0 H.
  - simpl in H. inversion H; subst. exact H0.
  - simpl in H. inv_bind H.
    apply (IH a); [| exact H].
    eapply processChunk_length; eassumption.
Qed.

Lemma validRecords_app (l1 l2 : list value) :
  validRecords (l1 ++ l2)%list -> validRecords l1 /\ validRecords l2.
Proof. unfold validRecords. apply Forall_app. Qed.

Lemma goodRecord_valid : validRecord goodRecord = Ok true.
Proof. vm_compute. reflexivity. Qed.

Lemma burst_valid : validRecords burst.
Proof.
  apply Forall_forall. intros x Hx.
  apply repeat_spec in Hx. subst x. exact goodRecord_valid.
Qed.

Lemma burst_length : Array_length burst = 100001.
Proof.
  unfold Array_length, burst. rewrite repeat_length.
  apply Z2Nat.id. discriminate.
Qed.


Lemma compactWeights_over (stats : StreamStats) :
  weightThreshold < Array_length (stats_weights stats) ->
  stats_weights (compactWeights stats)
  = [statsCalculators.median
       (Array_sort (fun a b => num_sub a b) (stats_weights stats))].
Proof.
  intros H. apply Z.ltb_lt in H. unfold compactWeights. rewrite H. reflexivity.
Qed.


(** C9: at every suspension point between chunks the shared weight buffer
    holds at most 100000 entries; while the records of a chunk are being
    appended it holds the entries it started the chunk with plus one per
    record processed so far, hence at most 100000 plus the size of the
    chunk; and it does exceed 100000 within a chunk, since the compaction
    check runs once the records of the chunk have all been appended. *)
Theorem weight_buffer_bound :
  (forall (dataStream : list value) (stats : StreamStats),
      foldM processChunk dataStream initialStats = Ok stats ->
      Array_length (stats_weights stats) <= weightThreshold)
  /\ (forall (stats stats' : StreamStats) (a : loc)
             (items cleanChunk processed rest : list value),
         Array_length (stats_weights stats) <= weightThreshold ->
         validateAndCleanData (VArr a items) = Ok cleanChunk ->
         cleanChunk = (processed ++ rest)%list ->
         processItems stats processed = Ok stats' ->
         Array_length (stats_weights stats')
         = Array_length (stats_weights stats) + Array_length processed
         /\ Array_length (stats_weights stats')
            <= weightThreshold + Array_length items)
  /\ (exists stats',
         validateAndCleanData (VArr 0 burst) = Ok burst
         /\ processItems initialStats burst = Ok stats'
         /\ Array_length (stats_weights stats') = 100001
         /\ weightThreshold < Array_length (stats_weights stats')
         /\ Array_length (stats_weights (compactWeights stats')) = 1).
Proof.
  split; [| split].
  - intros dataStream stats H.
    apply (foldM_processChunk_length dataStream initialStats stats);
      [unfold weightThreshold, Array_length; simpl; lia | exact H].
  - intros stats stats' a items cleanChunk processed rest H0 Hclean Hsplit Hrun.
    pose proof (Array_filter_length _ _ _ Hclean) as Hlen.
    apply validateAndCleanData_valid in Hclean. subst cleanChunk.
    apply validRecords_app in Hclean. destruct Hclean as [Hproc _].
    rewrite (processItems_valid processed stats Hproc) in Hrun.
    inversion Hrun; subst; clear Hrun. cbn [stats_weights].
    unfold Array_length in *. rewrite length_app, length_map in *. lia.
  - pose proof burst_valid as Hvalid. pose proof burst_length as Hlen.
    remember burst as big eqn:Hbig. clear Hbig.
    pose proof (processItems_valid big initialStats Hvalid) as Hrun.
    remember (processItems initialStats big) as run eqn:Hrun'. clear Hrun'.
    match type of Hrun with _ = Ok ?s => remember s as stats' eqn:Hs end.
    assert (Hw : Array_length (stats_weights stats') = 100001).
    { subst stats'. cbn [stats_weights initialStats app].
      unfold Array_length in *. rewrite length_map. exact Hlen. }
    exists stats'. split; [| split; [| split; [| split]]].
    + apply Array_filter_valid. exact Hvalid.
    + exact Hrun.
    + exact Hw.
    + rewrite Hw. reflexivity.
    + rewrite compactWeights_over; [reflexivity |].
      rewrite Hw. reflexivity.
Qed.

Lemma weight_buffer_bound_witness :
  Array_length
    (stats_weights
       {| stats_byRegion := [(VStr "Asia", [literal "100"])];
          stats_byRegionAndYear := [];
          stats_byResource := [(VStr "Cereals", [literal "100"])];
          stats_weights := [literal "50"];
          processedCount := 1 |}) <= weightThreshold.
Proof.
  apply (proj1 weight_buffer_bound [VArr 0 [goodRecord]]).
  vm_compute. reflexivity.
Defined.

(** ** Weight compaction *)





(** ** The streaming aggregator against the batch aggregator *)

Section MapMap.

Context {A B : Type} (f : A -> B).

Lemma Map_has_map (m : Map (list A)) (key : value) :
  Map_has (Map_map f m) key = Map_has m key.
Proof.
  induction m as [| [k w] m IH]; simpl.
  - reflexivity.
  - rewrite IH. reflexivity.
Qed.

Lemma Map_set_map (m : Map (list A)) (key : value) :
  Map_set (Map_map f m) key [] = Map_map f (Map_set m key []).
Proof.
  induction m as [| [k w] m IH]; simpl.
  - reflexivity.
  - destruct (SameValueZero k key); simpl.
    + reflexivity.
    + rewrite IH. reflexivity.
Qed.

Lemma Map_push_map (m : Map (list A)) (key : value) (x : A) :
  Map_push (Map_map f m) key (f x) = Map_map f (Map_push m key x).
Proof.
  induction m as [| [k w] m IH]; simpl.
  - reflexivity.
  - destruct (SameValueZero k key); simpl.
    + rewrite map_app. reflexivity.
    + rewrite IH. reflexivity.
Qed.

Lemma pushKey_map (m : Map (list A)) (key : value) (x : A) :
  pushKey (Map_map f m) key (f x) = Map_map f (pushKey m key x).
Proof.
  unfold pushKey. rewrite Map_has_map.
  destruct (Map_has m key); simpl.
  - apply Map_push_map.
  - rewrite Map_set_map. apply Map_push_map.
Qed.

End MapMap.

Lemma performantGroupBy_field (field : string) (data : list value) :
  performantGroupBy data (fun item => Ok (Get item field))
  = Ok (groupsBy field data []).
Proof.
  unfold performantGroupBy, groupsBy. generalize (@nil (value * list value)).
  induction data as [| item data IH]; intros m; simpl.
  - reflexivity.
  - apply IH.
Qed.

Lemma bufferBy_groupsBy (field : string) (items : list value)
    (m : Map (list value)) :
  bufferBy field items (Map_map (numberOf "value") m)
  = Map_map (numberOf "value") (groupsBy field items m).
Proof.
  unfold bufferBy, groupsBy. revert m.
  induction items as [| item items IH]; intros m; simpl.
  - reflexivity.
  - rewrite pushKey_map. apply IH.
Qed.

Lemma bufferBy_app (field : string) (l1 l2 : list value) (m : Map (list number)) :
  bufferBy field (l1 ++ l2)%list m = bufferBy field l2 (bufferBy field l1 m).
Proof. unfold bufferBy. apply fold_left_app. Qed.

Lemma Map_set_valid (m : Map (list value)) (key : value) :
  validGroups m -> validGroups (Map_set m key []).
Proof.
  unfold validGroups. induction 1 as [| [k w] m Hw Hm IH]; simpl.
  - repeat constructor.
  - destruct (SameValueZero k key); constructor; auto. constructor.
Qed.

Lemma Map_push_valid (m : Map (list value)) (key item : value) :
  validRecord item = Ok true -> validGroups m ->
  validGroups (Map_push m key item).
Proof.
  unfold validGroups. intros Hitem. induction 1 as [| [k w] m Hw Hm IH]; simpl.
  - constructor.
  - destruct (SameValueZero k key); constructor; auto.
    simpl in *. apply Forall_app. split; [exact Hw | repeat constructor; exact Hitem].
Qed.

Lemma groupsBy_valid (field : string) (items : list value) (m : Map (list value)) :
  validRecords items -> validGroups m -> validGroups (groupsBy field items m).
Proof.
  unfold groupsBy. intros H. revert m.
  induction H as [| item items Hitem Hitems IH]; intros m Hm; simpl.
  - exact Hm.
  - apply IH. unfold pushKey. apply Map_push_valid; [exact Hitem |].
    destruct (Map_has m (Get item field)); simpl;
      [exact Hm | apply Map_set_valid; exact Hm].
Qed.

Lemma summarizeGroups_buffers (m : Map (list value)) :
  validGroups m ->
  summarizeGroups m = summarizeBuffers (Map_map (numberOf "value") m).
Proof.
  unfold summarizeGroups, summarizeBuffers. intros H.
  generalize (@nil (string * Summary)).
  induction H as [| [k items] m Hitems Hm IH]; intros acc; simpl.
  - reflexivity.
  - simpl in Hitems.
    rewrite (numbersOf_valid "value" items); [| simpl; tauto | exact Hitems].
    simpl. destruct (ToPropertyKey k); simpl; [apply IH | reflexivity].
Qed.

Lemma Array_filter_concat {A : Type} (p : A -> result bool)
    (ls : list (list A)) (c : list A) :
  Array_filter p (List.concat ls) = Ok c ->
  exists cs, Forall2 (fun l c => Array_filter p l = Ok c) ls cs
             /\ c = List.concat cs.
Proof.
  revert c. induction ls as [| l ls IH]; intros c H; simpl in H.
  - inversion H. exists []. split; [constructor | reflexivity].
  - apply Array_filter_app in H. destruct H as [c1 [c2 [H1 [H2 ->]]]].
    destruct (IH _ H2) as [cs [Hcs ->]].
    exists (c1 :: cs). split; [constructor; assumption | reflexivity].
Qed.

(** The chunk loop fills the buffers as one pass over the validated records
    of all the chunks would. *)
Lemma foldM_processChunk_buffers (chunks : list (loc * list value))
    (cleans : list (list value)) (stats : StreamStats) :
  Forall2 (fun l c => Array_filter validRecord l = Ok c) (map snd chunks) cleans ->
  exists stats',
    foldM processChunk (streamOf chunks) stats = Ok stats'
    /\ stats_byRegion stats'
       = bufferBy "region" (List.concat cleans) (stats_byRegion stats)
    /\ stats_byResource stats'
       = bufferBy "resource" (List.concat cleans) (stats_byResource stats).
Proof.
  revert cleans stats.
  induction chunks as [| [l items] chunks IH]; intros cleans stats H;
    inversion H as [| ? clean ? cleans' Hclean Hrest]; subst.
  - exists stats. repeat split.
  - pose proof (Array_filter_Forall _ _ _ Hclean) as Hvalid.
    cbn [streamOf map foldM]. unfold processChunk at 1.
    cbn [validateAndCleanData]. simpl snd in Hclean. rewrite Hclean. cbn [bind].
    rewrite (processItems_valid clean stats Hvalid). cbn [bind].
    match goal with |- context [compactWeights ?s] =>
      destruct (IH cleans' (compactWeights s) Hrest) as [stats' [Hrun [Hreg Hres]]];
      assert (Hcr : stats_byRegion (compactWeights s) = stats_byRegion s)
        by (unfold compactWeights; destruct (weightThreshold <? _); reflexivity);
      assert (Hcs : stats_byResource (compactWeights s) = stats_byResource s)
        by (unfold compactWeights; destruct (weightThreshold <? _); reflexivity)
    end.
    exists stats'. split; [exact Hrun |].
    rewrite Hreg, Hres, Hcr, Hcs. cbn [stats_byRegion stats_byResource List.concat].
    rewrite !bufferBy_app. split; reflexivity.
Qed.

Lemma stream_matches_batch (a : loc) (chunks : list (loc * list value))
    (r : AggregateResult) :
  calculateStatistics (VArr a (recordsOf chunks)) = Ok r ->
  exists r',
    calculateStatisticsStream (streamOf chunks) = Ok r'
    /\ stream_byRegion r' = byRegion r
    /\ stream_byResource r' = byResource r.
Proof.
  unfold calculateStatistics. intros H.
  apply bind_Ok in H. destruct H as [clean [Hclean H]].
  destruct (Array_length clean =? 0); [discriminate H |].
  pose proof (validateAndCleanData_valid _ _ Hclean) as Hvalid.
  rewrite !performantGroupBy_field in H. cbn [bind] in H.
  apply bind_Ok in H. destruct H as [regions [Hregions H]].
  apply bind_Ok in H. destruct H as [regionYearGroups [_ H]].
  apply bind_Ok in H. destruct H as [regionYears [_ H]].
  cbn [bind] in H.
  apply bind_Ok in H. destruct H as [resources [Hresources H]].
  apply bind_Ok in H. destruct H as [allWeights [_ H]].
  inversion H; subst r; clear H. cbn [byRegion byResource].
  cbn [validateAndCleanData] in Hclean. unfold recordsOf in Hclean.
  apply Array_filter_concat in Hclean. destruct Hclean as [cleans [Hcleans ->]].
  destruct (foldM_processChunk_buffers chunks cleans initialStats Hcleans)
    as [stats [Hrun [Hreg Hres]]].
  cbn [initialStats stats_byRegion stats_byResource] in Hreg, Hres.
  assert (Hempty : @nil (value * list number) = Map_map (numberOf "value") [])
    by reflexivity.
  rewrite Hempty, bufferBy_groupsBy in Hreg, Hres.
  rewrite summarizeGroups_buffers in Hregions, Hresources
    by (apply groupsBy_valid; [exact Hvalid | constructor]).
  unfold calculateStatisticsStream. rewrite Hrun. cbn [bind].
  unfold finalizeStream. rewrite Hreg, Hres, Hregions, Hresources. cbn [bind].
  eexists. split; [reflexivity |]. split; reflexivity.
Qed.

(** C4: when the batch aggregator returns a result for the records of a
    stream of chunks (so at least one of them is valid), the streaming
    aggregator returns a result on that stream, and on every other way of
    cutting the same records into chunks, with the [byRegion] and
    [byResource] maps of the batch result; the weight compaction does not
    touch these maps. *)
Theorem stream_refines_batch (a : loc) (chunks chunks' : list (loc * list value))
    (r : AggregateResult) :
  calculateStatistics (VArr a (recordsOf chunks)) = Ok r ->
  recordsOf chunks' = recordsOf chunks ->
  exists r1 r2,
    calculateStatisticsStream (streamOf chunks) = Ok r1
    /\ calculateStatisticsStream (streamOf chunks') = Ok r2
    /\ stream_byRegion r1 = byRegion r /\ stream_byResource r1 = byResource r
    /\ stream_byRegion r2 = byRegion r /\ stream_byResource r2 = byResource r
    /\ stream_byRegion r1 = stream_byRegion r2
    /\ stream_byResource r1 = stream_byResource r2.
Proof.
  intros H Hsame.
  destruct (stream_matches_batch a chunks r H) as [r1 [H1 [R1 S1]]].
  rewrite <- Hsame in H.
  destruct (stream_matches_batch a chunks' r H) as [r2 [H2 [R2 S2]]].
  exists r1, r2. repeat split; congruence.
Qed.

Lemma stream_refines_batch_witness :
  exists r r1 r2,
    calculateStatistics (VArr 0 (recordsOf sampleChunks)) = Ok r
    /\ calculateStatisticsStream (streamOf sampleChunks) = Ok r1
    /\ calculateStatisticsStream (streamOf sampleChunks') = Ok r2
    /\ stream_byRegion r1 = byRegion r /\ stream_byResource r1 = byResource r
    /\ stream_byRegion r2 = byRegion r /\ stream_byResource r2 = byResource r
    /\ stream_byRegion r1 = stream_byRegion r2
    /\ stream_byResource r1 = stream_byResource r2.
Proof.
  assert (H : exists r, calculateStatistics (VArr 0 (recordsOf sampleChunks)) = Ok r)
    by (eexists; vm_compute; reflexivity).
  destruct H as [r H].
  destruct (stream_refines_batch 0 sampleChunks sampleChunks' r H eq_refl)
    as [r1 [r2 H12]].
  exists r, r1, r2. split; [exact H | exact H12].
Defined.

(** ** Rounding of binary64 mantissas *)


Lemma digits2_pos_bounds (p : positive) :
  2 ^ (Zpos (digits2_pos p) - 1) <= Zpos p < 2 ^ Zpos (digits2_pos p).
Proof.
  induction p as [p IH | p IH |]; cbn [digits2_pos].
  - rewrite Pos2Z.inj_succ. change (Zpos p~1) with (2 * Zpos p + 1).
    replace (Z.succ (Zpos (digits2_pos p)) - 1) with (Z.succ (Zpos (digits2_pos p) - 1)) by lia.
    rewrite !Z.pow_succ_r by lia. lia.
  - rewrite Pos2Z.inj_succ. change (Zpos p~0) with (2 * Zpos p).
    replace (Z.succ (Zpos (digits2_pos p)) - 1) with (Z.succ (Zpos (digits2_pos p) - 1)) by lia.
    rewrite !Z.pow_succ_r by lia. lia.
  - simpl. lia.
Qed.

Lemma shr_m_shr_1 (mrs : shr_record) :
  0 <= shr_m mrs -> shr_m (shr_1 mrs) = shr_m mrs / 2.
Proof.
  destruct mrs as [m r s]. cbn [shr_m]. intros Hm.
  destruct m as [| p | p]; [reflexivity | | lia].
  destruct p as [p | p |]; cbn [shr_1 shr_m].
  - change (Zpos p~1) with (2 * Zpos p + 1). apply Z.div_unique with (r := 1); lia.
  - change (Zpos p~0) with (2 * Zpos p). apply Z.div_unique with (r := 0); lia.
  - reflexivity.
Qed.

Lemma shr_m_iter_pos (p : positive) (mrs : shr_record) :
  0 <= shr_m mrs ->
  shr_m (iter_pos shr_1 p mrs) = shr_m mrs / 2 ^ Zpos p.
Proof.
  revert mrs. induction p as [p IH | p IH |]; intros mrs Hm; cbn [iter_pos].
  - assert (H1 : 0 <= shr_m (shr_1 mrs))
      by (rewrite shr_m_shr_1 by exact Hm; apply Z.div_pos; lia).
    assert (H2 : 0 <= shr_m (iter_pos shr_1 p (shr_1 mrs)))
      by (rewrite IH by exact H1; apply Z.div_pos; [exact H1 | apply Z.pow_pos_nonneg; lia]).
    rewrite IH by exact H2. rewrite IH by exact H1. rewrite shr_m_shr_1 by exact Hm.
    rewrite !Z.div_div by (try apply Z.pow_pos_nonneg; lia).
    f_equal. change (Zpos p~1) with (2 * Zpos p + 1).
    replace (2 * Zpos p + 1) with (1 + Zpos p + Zpos p) by lia.
    rewrite !Z.pow_add_r by lia. rewrite Z.pow_1_r. lia.
  - assert (H2 : 0 <= shr_m (iter_pos shr_1 p mrs))
      by (rewrite IH by exact Hm; apply Z.div_pos; [exact Hm | apply Z.pow_pos_nonneg; lia]).
    rewrite IH by exact H2. rewrite IH by exact Hm.
    rewrite !Z.div_div by (try apply Z.pow_pos_nonneg; lia).
    f_equal. change (Zpos p~0) with (2 * Zpos p).
    replace (2 * Zpos p) with (Zpos p + Zpos p) by lia.
    rewrite !Z.pow_add_r by lia. lia.
  - rewrite shr_m_shr_1 by exact Hm. reflexivity.
Qed.

Lemma shr_m_of_loc (m : Z) (l : location) : shr_m (shr_record_of_loc m l) = m.
Proof. destruct l as [| []]; reflexivity. Qed.

Lemma shr_fexp_positive (m : positive) (e : Z) (l : location) :
  emin prec emax <= e ->
  0 < shr_m (fst (shr_fexp prec emax (Zpos m) e l))
  /\ emin prec emax <= snd (shr_fexp prec emax (Zpos m) e l).
Proof.
  intros He. unfold shr_fexp, shr. cbn [Zdigits2].
  pose proof (digits2_pos_bounds m) as [Hlo _].
  remember (Zpos (digits2_pos m)) as d eqn:Hd.
  assert (Hd1 : 1 <= d) by lia.
  unfold fexp. change (emin prec emax) with (-1074) in *. change prec with 53 in *.
  destruct (Z.max (d + e - 53) (-1074) - e) as [| p | p] eqn:Hn; cbn [fst snd].
  - rewrite shr_m_of_loc. lia.
  - rewrite shr_m_iter_pos by (rewrite shr_m_of_loc; lia).
    rewrite shr_m_of_loc. split; [| lia].
    assert (Hp : Zpos p = d - 53) by lia.
    apply Z.div_str_pos. split; [apply Z.pow_pos_nonneg; lia |].
    apply Z.le_trans with (2 ^ (d - 1)); [| exact Hlo].
    apply Z.pow_le_mono_r; lia.
  - rewrite shr_m_of_loc. lia.
Qed.

Lemma round_nearest_even_positive (m : Z) (l : location) :
  0 < m -> 0 < round_nearest_even m l.
Proof.
  intros Hm. destruct l as [| []]; cbn [round_nearest_even];
    try destruct (Z.even m); lia.
Qed.


Lemma binary_round_aux_signed (s : bool) (m : positive) (e : Z) (l : location) :
  emin prec emax <= e ->
  signed_nonzero s (binary_round_aux prec emax s (Zpos m) e l).
Proof.
  intros He. unfold binary_round_aux.
  pose proof (shr_fexp_positive m e l He) as [H1 H1e].
  destruct (shr_fexp prec emax (Zpos m) e l) as [mrs' e']. cbn [fst snd] in H1, H1e.
  pose proof (round_nearest_even_positive (shr_m mrs') (loc_of_shr_record mrs') H1) as H2.
  destruct (round_nearest_even (shr_m mrs') (loc_of_shr_record mrs')) as [| m2 | m2];
    try lia.
  pose proof (shr_fexp_positive m2 e' loc_Exact H1e) as [H3 _].
  destruct (shr_fexp prec emax (Zpos m2) e' loc_Exact) as [mrs'' e''].
  cbn [fst] in H3.
  destruct (shr_m mrs'') as [| m3 | m3]; try lia.
  destruct (e'' <=? emax - prec).
  - left. eauto.
  - right. reflexivity.
Qed.

Lemma binary_round_signed (s : bool) (m : positive) (e : Z) :
  emin prec emax <= e ->
  signed_nonzero s (binary_round prec emax s m e).
Proof.
  intros He. unfold binary_round, shl_align.
  destruct (fexp prec emax (Zpos (digits2_pos m) + e) - e) eqn:Hd;
    apply binary_round_aux_signed; try exact He.
  unfold fexp in *. lia.
Qed.

Lemma signed_nonzero_gt_zero (s : bool) (x : number) :
  signed_nonzero s x -> num_gt x pos_zero = negb s.
Proof.
  intros [[m [e ->]] | ->]; destruct s; reflexivity.
Qed.

Lemma Pos_iter_xO (m d : positive) :
  Zpos (Pos.iter xO m d) = Zpos m * 2 ^ Zpos d.
Proof.
  induction d as [| d IH] using Pos.peano_ind.
  - cbn [Pos.iter]. rewrite Z.pow_1_r. lia.
  - rewrite Pos.iter_succ, Pos2Z.inj_succ, Z.pow_succ_r by lia.
    change (Zpos (Pos.iter xO m d)~0) with (2 * Zpos (Pos.iter xO m d)). lia.
Qed.

Lemma shl_align_value (m : positive) (e e' : Z) :
  e' <= e -> Zpos (fst (shl_align m e e')) = Zpos m * 2 ^ (e - e').
Proof.
  intros H. unfold shl_align.
  destruct (e' - e) as [| d | d] eqn:Hd; cbn [fst].
  - replace (e - e') with 0 by lia. lia.
  - lia.
  - rewrite Pos_iter_xO. f_equal. f_equal. lia.
Qed.

(** The bounds that make a mantissa and exponent canonical. *)
Lemma bounded_inv (m : positive) (e : Z) :
  bounded prec emax m e = true ->
  emin prec emax <= e
  /\ Zpos m < 2 ^ prec
  /\ (emin prec emax < e -> 2 ^ (prec - 1) <= Zpos m).
Proof.
  unfold bounded, canonical_mantissa, fexp. intros H.
  apply andb_prop in H. destruct H as [H _]. apply Z.eqb_eq in H.
  pose proof (digits2_pos_bounds m) as [Hlo Hhi].
  change (emin prec emax) with (-1074) in *. change prec with 53 in *.
  remember (Zpos (digits2_pos m)) as d eqn:Hd.
  assert (Hd53 : d <= 53) by lia.
  split; [lia |]. split.
  - apply Z.lt_le_trans with (2 ^ d); [exact Hhi |].
    apply Z.pow_le_mono_r; lia.
  - intros He. assert (d = 53) by lia. subst d. rewrite H0 in Hlo. exact Hlo.
Qed.

Lemma binary_normalize_gt_zero (d e : Z) :
  emin prec emax <= e ->
  num_gt (binary_normalize prec emax d e false) pos_zero = (0 <? d).
Proof.
  intros He. destruct d as [| p | p]; cbn [binary_normalize].
  - reflexivity.
  - rewrite (signed_nonzero_gt_zero false) by (apply binary_round_signed; exact He).
    reflexivity.
  - rewrite (signed_nonzero_gt_zero true) by (apply binary_round_signed; exact He).
    reflexivity.
Qed.

(** The comparator [(a, b) => a - b] of the source is positive exactly when
    [b < a]: on doubles a difference is never rounded to zero. *)
Lemma num_sub_gt_zero (x y : number) :
  is_finite x = true -> is_finite y = true ->
  valid_number x -> valid_number y ->
  num_gt (num_sub x y) pos_zero = num_lt y x.
Proof.
  unfold valid_number, num_lt, num_sub.
  destruct x as [sx | | | sx mx ex]; try discriminate;
    destruct y as [sy | | | sy my ey]; try discriminate; intros _ _ Hx Hy.
  - destruct sx, sy; reflexivity.
  - destruct sx, sy; reflexivity.
  - destruct sx, sy; reflexivity.
  - cbn [valid_binary] in Hx, Hy.
    apply bounded_inv in Hx, Hy.
    destruct Hx as [Hxe [Hxhi Hxlo]]. destruct Hy as [Hye [Hyhi Hylo]].
    cbn [SFsub].
    rewrite binary_normalize_gt_zero by (apply Z.min_glb; assumption).
    rewrite !shl_align_value by lia.
    change (2 ^ prec) with 9007199254740992 in *.
    change (2 ^ (prec - 1)) with 4503599627370496 in *.
    unfold SFltb, SFcompare.
    assert (Hpx : 0 < 2 ^ (ex - Z.min ex ey)) by (apply Z.pow_pos_nonneg; lia).
    assert (Hpy : 0 < 2 ^ (ey - Z.min ex ey)) by (apply Z.pow_pos_nonneg; lia).
    destruct (Z.compare_spec ey ex) as [Heq | Hlt | Hgt].
    + subst ey. rewrite Z.min_id, Z.sub_diag in *. rewrite Z.pow_0_r.
      rewrite Pos.compare_cont_spec. cbn [Pos.switch_Eq].
      destruct sx, sy; cbn [cond_Zopp]; try (apply Z.ltb_lt; lia);
        try (apply Z.ltb_ge; lia);
        destruct (Pos.compare_spec my mx) as [E | L | G]; cbn [CompOpp];
        try (apply Z.ltb_lt; lia); try (apply Z.ltb_ge; lia).
    + rewrite Z.min_r in * by lia. rewrite Z.sub_diag, Z.pow_0_r in *.
      assert (H2 : 2 <= 2 ^ (ex - ey))
        by (change 2 with (2 ^ 1) at 1; apply Z.pow_le_mono_r; lia).
      specialize (Hxlo ltac:(lia)).
      destruct sx, sy; cbn [cond_Zopp]; try (apply Z.ltb_lt; nia);
        try (apply Z.ltb_ge; nia).
    + rewrite Z.min_l in * by lia. rewrite Z.sub_diag, Z.pow_0_r in *.
      assert (H2 : 2 <= 2 ^ (ey - ex))
        by (change 2 with (2 ^ 1) at 1; apply Z.pow_le_mono_r; lia).
      specialize (Hylo ltac:(lia)).
      destruct sx, sy; cbn [cond_Zopp]; try (apply Z.ltb_lt; nia);
        try (apply Z.ltb_ge; nia).
Qed.


(** ** The order of finite numbers *)

Lemma num_le_key (x y : number) :
  is_finite x = true -> is_finite y = true ->
  (num_le x y = true <-> key_le (order_key x) (order_key y)).
Proof.
  unfold num_le, SFleb, SFcompare.
  destruct x as [sx | | | sx mx ex]; try discriminate;
    destruct y as [sy | | | sy my ey]; try discriminate; intros _ _;
    try destruct sx; try destruct sy; cbn [order_key key_le];
    try (split; [intros _; lia | reflexivity]);
    try (split; [discriminate | lia]).
  - destruct (Z.compare_spec ex ey); [rewrite Pos.compare_cont_spec;
      cbn [Pos.switch_Eq]; destruct (Pos.compare_spec mx my) | |];
      cbn [CompOpp]; split; try discriminate; try reflexivity; lia.
  - destruct (Z.compare_spec ex ey); [rewrite Pos.compare_cont_spec;
      cbn [Pos.switch_Eq]; destruct (Pos.compare_spec mx my) | |];
      split; try discriminate; try reflexivity; lia.
Qed.

Lemma num_lt_key (x y : number) :
  is_finite x = true -> is_finite y = true ->
  (num_lt x y = true <-> ~ key_le (order_key y) (order_key x)).
Proof.
  unfold num_lt, SFltb, SFcompare.
  destruct x as [sx | | | sx mx ex]; try discriminate;
    destruct y as [sy | | | sy my ey]; try discriminate; intros _ _;
    try destruct sx; try destruct sy; cbn [order_key key_le];
    try (split; [intros _; lia | reflexivity]);
    try (split; [discriminate | lia]).
  - destruct (Z.compare_spec ex ey); [rewrite Pos.compare_cont_spec;
      cbn [Pos.switch_Eq]; destruct (Pos.compare_spec mx my) | |];
      cbn [CompOpp]; split; try discriminate; try reflexivity; lia.
  - destruct (Z.compare_spec ex ey); [rewrite Pos.compare_cont_spec;
      cbn [Pos.switch_Eq]; destruct (Pos.compare_spec mx my) | |];
      split; try discriminate; try reflexivity; lia.
Qed.

Lemma num_le_trans (x y z : number) :
  is_finite x = true -> is_finite y = true -> is_finite z = true ->
  num_le x y = true -> num_le y z = true -> num_le x z = true.
Proof.
  intros Hx Hy Hz. rewrite !num_le_key by assumption.
  destruct (order_key x) as [[? ?] ?], (order_key y) as [[? ?] ?],
    (order_key z) as [[? ?] ?]. unfold key_le. lia.
Qed.

Lemma num_le_total (x y : number) :
  is_finite x = true -> is_finite y = true ->
  num_lt y x = false -> num_le x y = true.
Proof.
  intros Hx Hy H. apply num_le_key; [assumption | assumption |].
  destruct (num_lt_key y x Hy Hx) as [_ H2].
  destruct (order_key x) as [[? ?] ?], (order_key y) as [[? ?] ?].
  unfold key_le in *.
  assert (Hd : forall P : Prop, (P \/ ~ P) -> (~ P -> num_lt y x = true) -> P).
  { intros P [HP | HP] HH; [exact HP |]. rewrite (HH HP) in H. discriminate. }
  apply Hd; [lia | exact H2].
Qed.

Lemma num_lt_le (x y : number) :
  is_finite x = true -> is_finite y = true ->
  num_lt x y = true -> num_le x y = true.
Proof.
  intros Hx Hy H. apply num_le_key; [assumption | assumption |].
  apply (num_lt_key x y Hx Hy) in H.
  destruct (order_key x) as [[? ?] ?], (order_key y) as [[? ?] ?].
  unfold key_le in *. lia.
Qed.

Lemma order_key_unsigned_zero (x : number) :
  order_key (unsigned_zero x) = order_key x.
Proof. destruct x as [[] | | | ]; reflexivity. Qed.

Lemma is_finite_unsigned_zero (x : number) :
  is_finite (unsigned_zero x) = is_finite x.
Proof. destruct x as [[] | | | ]; reflexivity. Qed.

Lemma num_le_antisym (x y : number) :
  is_finite x = true -> is_finite y = true ->
  num_le x y = true -> num_le y x = true ->
  unsigned_zero x = unsigned_zero y.
Proof.
  intros Hx Hy. rewrite !num_le_key by assumption.
  destruct x as [sx | | | sx mx ex]; try discriminate;
    destruct y as [sy | | | sy my ey]; try discriminate;
    try destruct sx; try destruct sy; cbn [order_key key_le unsigned_zero is_zero];
    intros H1 H2; try reflexivity; try lia.
  - assert (ex = ey) by lia. assert (Zpos mx = Zpos my) by lia. congruence.
  - assert (ex = ey) by lia. assert (Zpos mx = Zpos my) by lia. congruence.
Qed.

Lemma unsigned_zero_same (x y : number) :
  unsigned_zero x = unsigned_zero y -> same_number x y.
Proof.
  unfold same_number.
  destruct x as [sx | sx | | sx mx ex], y as [sy | sy | | sy my ey];
    cbn [unsigned_zero is_zero]; intros H; try discriminate; auto.
Qed.


(** ** Sorting the finite entries *)

Lemma Permutation_filter {A : Type} (p : A -> bool) (l1 l2 : list A) :
  Permutation l1 l2 -> Permutation (filter p l1) (filter p l2).
Proof.
  induction 1 as [| x l1 l2 H IH | x y l | l1 l2 l3 H12 IH12 H23 IH23]; simpl.
  - constructor.
  - destruct (p x); [constructor |]; exact IH.
  - destruct (p x), (p y); try apply Permutation_refl. apply perm_swap.
  - eapply Permutation_trans; eassumption.
Qed.

Lemma filter_finite_doubles (values : list number) :
  Forall valid_number values -> Forall finite_double (filter is_finite values).
Proof.
  induction 1 as [| x l Hx Hl IH]; simpl.
  - constructor.
  - destruct (is_finite x) eqn:E; [constructor; [split; assumption |] |]; exact IH.
Qed.

Lemma sort_insert_Permutation (x : number) (l : list number) :
  Permutation (sort_insert (fun a b => num_sub a b) x l) (x :: l).
Proof.
  induction l as [| y l IH]; simpl.
  - apply Permutation_refl.
  - destruct (num_gt ((fun a b => num_sub a b) x y) pos_zero).
    + eapply Permutation_trans; [apply perm_skip; exact IH | apply perm_swap].
    + apply Permutation_refl.
Qed.

Lemma Array_sort_Permutation (l : list number) :
  Permutation (Array_sort (fun a b => num_sub a b) l) l.
Proof.
  induction l as [| x l IH]; simpl.
  - constructor.
  - eapply Permutation_trans; [apply sort_insert_Permutation |].
    apply perm_skip. exact IH.
Qed.

Lemma sort_insert_ascending (x : number) (l : list number) :
  finite_double x -> Forall finite_double l -> ascending l ->
  ascending (sort_insert (fun a b => num_sub a b) x l).
Proof.
  unfold ascending. intros [Hfx Hvx] Hl Hs.
  induction Hs as [| y l Hs IH Hy]; simpl.
  - repeat constructor.
  - inversion Hl as [| ? ? [Hfy Hvy] Hl']; subst.
    rewrite (num_sub_gt_zero x y Hfx Hfy Hvx Hvy).
    destruct (num_lt y x) eqn:E.
    + constructor; [apply IH; exact Hl' |].
      eapply Permutation_Forall;
        [apply Permutation_sym; apply sort_insert_Permutation |].
      constructor; [apply num_lt_le; assumption | exact Hy].
    + pose proof (num_le_total x y Hfx Hfy E) as Hxy.
      constructor; [constructor; assumption |].
      constructor; [exact Hxy |].
      rewrite Forall_forall in *. intros z Hz.
      apply (num_le_trans x y z); auto.
      apply (Hl' z Hz).
Qed.

Lemma Array_sort_ascending (l : list number) :
  Forall finite_double l -> ascending (Array_sort (fun a b => num_sub a b) l).
Proof.
  induction 1 as [| x l Hx Hl IH]; simpl.
  - constructor.
  - apply sort_insert_ascending; [exact Hx | | exact IH].
    eapply Permutation_Forall;
      [apply Permutation_sym; apply Array_sort_Permutation | exact Hl].
Qed.

(** Two ascending arrangements of the same finite numbers, zeros without
    their sign, are the same list. *)
Lemma ascending_unique (l1 l2 : list number) :
  Forall (fun x => is_finite x = true /\ unsigned_zero x = x) l1 ->
  ascending l1 -> ascending l2 -> Permutation l1 l2 -> l1 = l2.
Proof.
  unfold ascending. intros Hf H1. revert l2.
  induction H1 as [| a l1 H1 IH Ha]; intros l2 H2 Hp.
  - apply Permutation_nil in Hp. subst. reflexivity.
  - destruct H2 as [| b l2 H2 Hb].
    + apply Permutation_sym, Permutation_nil in Hp. discriminate.
    + inversion Hf as [| ? ? [Hfa Hua] Hf1]; subst.
      assert (Hf2 : Forall (fun x => is_finite x = true /\ unsigned_zero x = x)
                           (b :: l2))
        by (eapply Permutation_Forall; eassumption).
      inversion Hf2 as [| ? ? [Hfb Hub] Hf2']; subst.
      assert (Hab : a = b).
      { assert (Hina : In a (b :: l2))
          by (eapply Permutation_in; [exact Hp | left; reflexivity]).
        assert (Hinb : In b (a :: l1))
          by (eapply Permutation_in;
              [apply Permutation_sym; exact Hp | left; reflexivity]).
        destruct Hina as [<- | Hina]; [reflexivity |].
        destruct Hinb as [<- | Hinb]; [reflexivity |].
        rewrite Forall_forall in Ha, Hb.
        rewrite <- Hua, <- Hub. apply num_le_antisym; auto. }
      subst b. f_equal. apply IH; [exact Hf1 | exact H2 |].
      eapply Permutation_cons_inv. exact Hp.
Qed.

Lemma num_le_unsigned_zero (a b : number) :
  num_le (unsigned_zero a) (unsigned_zero b) = num_le a b.
Proof. destruct a as [[] | | |], b as [[] | | |]; reflexivity. Qed.

Lemma unsigned_zero_idem (x : number) :
  unsigned_zero (unsigned_zero x) = unsigned_zero x.
Proof. destruct x as [[] | | |]; reflexivity. Qed.

Lemma ascending_map_unsigned (l : list number) :
  ascending l -> ascending (map unsigned_zero l).
Proof.
  unfold ascending. induction 1 as [| a l H IH Ha]; simpl.
  - constructor.
  - constructor; [exact IH |].
    rewrite Forall_map. eapply Forall_impl; [| exact Ha].
    intros b Hb. simpl. rewrite num_le_unsigned_zero. exact Hb.
Qed.

Lemma map_unsigned_same (l1 l2 : list number) :
  map unsigned_zero l1 = map unsigned_zero l2 -> Forall2 same_number l1 l2.
Proof.
  revert l2. induction l1 as [| a l1 IH]; intros [| b l2] H; simpl in H;
    try discriminate.
  - constructor.
  - injection H as Hab Hl. constructor; [apply unsigned_zero_same; exact Hab |].
    apply IH. exact Hl.
Qed.

(** The sorted finite entries of two permutations of the same doubles agree
    entry by entry, up to the sign of a zero. *)
Lemma sortedFinite_Permutation (l1 l2 : list number) :
  Forall valid_number l1 -> Permutation l1 l2 ->
  Forall2 same_number (sortedFinite l1) (sortedFinite l2).
Proof.
  intros Hv Hp. unfold sortedFinite.
  assert (Hv2 : Forall valid_number l2) by (eapply Permutation_Forall; eassumption).
  pose proof (filter_finite_doubles l1 Hv) as Hd1.
  pose proof (filter_finite_doubles l2 Hv2) as Hd2.
  apply map_unsigned_same. apply ascending_unique.
  - rewrite Forall_map.
    eapply Permutation_Forall;
      [apply Permutation_sym; apply Array_sort_Permutation |].
    eapply Forall_impl; [| exact Hd1].
    intros x [Hx _]. simpl. rewrite is_finite_unsigned_zero, unsigned_zero_idem. auto.
  - apply ascending_map_unsigned, Array_sort_ascending. exact Hd1.
  - apply ascending_map_unsigned, Array_sort_ascending. exact Hd2.
  - apply Permutation_map.
    eapply Permutation_trans; [apply Array_sort_Permutation |].
    eapply Permutation_trans; [| apply Permutation_sym; apply Array_sort_Permutation].
    apply Permutation_filter. exact Hp.
Qed.


(** ** Arithmetic up to the sign of a zero *)

Lemma same_number_refl (x : number) : same_number x x.
Proof. left. reflexivity. Qed.

Lemma num_add_same (a1 a2 b1 b2 : number) :
  same_number a1 a2 -> same_number b1 b2 ->
  same_number (num_add a1 b1) (num_add a2 b2).
Proof.
  unfold same_number, num_add.
  intros [-> | [Ha1 Ha2]] [-> | [Hb1 Hb2]].
  - left. reflexivity.
  - destruct b1 as [s1 | | |]; try discriminate.
    destruct b2 as [s2 | | |]; try discriminate.
    destruct a2 as [[] | [] | | [] ? ?], s1, s2; cbn; auto.
  - destruct a1 as [s1 | | |]; try discriminate.
    destruct a2 as [s2 | | |]; try discriminate.
    destruct b2 as [[] | [] | | [] ? ?], s1, s2; cbn; auto.
  - destruct a1 as [[] | | |]; try discriminate;
      destruct a2 as [[] | | |]; try discriminate;
      destruct b1 as [[] | | |]; try discriminate;
      destruct b2 as [[] | | |]; try discriminate; cbn; auto.
Qed.

Lemma round_zero (s : bool) :
  precisionHelper.round (VNum (S754_zero s)) default_precision = S754_zero s.
Proof. destruct s; vm_compute; reflexivity. Qed.

Lemma round_same (z1 z2 : number) :
  same_number z1 z2 ->
  same_number (precisionHelper.round (VNum z1) default_precision)
              (precisionHelper.round (VNum z2) default_precision).
Proof.
  intros [-> | [H1 H2]]; [left; reflexivity |].
  destruct z1 as [s1 | | |]; try discriminate.
  destruct z2 as [s2 | | |]; try discriminate.
  rewrite !round_zero. right. split; reflexivity.
Qed.

Lemma finite_or_zero_same (x y : number) :
  same_number x y ->
  same_number (precisionHelper.finite_or_zero (VNum x))
              (precisionHelper.finite_or_zero (VNum y)).
Proof.
  intros [-> | [H1 H2]]; [left; reflexivity |].
  destruct x as [s1 | | |]; try discriminate.
  destruct y as [s2 | | |]; try discriminate.
  right. split; reflexivity.
Qed.

Lemma divide_by_two_same (r1 r2 : number) :
  same_number r1 r2 ->
  same_number (precisionHelper.divide (VNum r1) (VNum (num_of_Z 2)))
              (precisionHelper.divide (VNum r2) (VNum (num_of_Z 2))).
Proof.
  intros [-> | [H1 H2]]; [left; reflexivity |].
  destruct r1 as [[] | | |]; try discriminate;
    destruct r2 as [[] | | |]; try discriminate;
    right; split; vm_compute; reflexivity.
Qed.

(** [values[i]] in two arrays that agree up to the sign of a zero. *)
Lemma Array_get_same (l1 l2 : list number) (i : Z) :
  Forall2 same_number l1 l2 ->
  same_number (precisionHelper.finite_or_zero (Array_get l1 i))
              (precisionHelper.finite_or_zero (Array_get l2 i)).
Proof.
  intros H. unfold Array_get. destruct (i <? 0); [left; reflexivity |].
  generalize (Z.to_nat i). clear i.
  induction H as [| a b l1 l2 Hab Hl IH]; intros [| n]; cbn [nth_error];
    try (left; reflexivity).
  - apply finite_or_zero_same. exact Hab.
  - apply IH.
Qed.

Lemma nth_same (l1 l2 : list number) (n : nat) :
  Forall2 same_number l1 l2 -> same_number (nth n l1 NaN) (nth n l2 NaN).
Proof.
  intros H. revert n.
  induction H as [| a b l1 l2 Hab Hl IH]; intros [| n]; cbn [nth];
    try (left; reflexivity).
  - exact Hab.
  - apply IH.
Qed.

Lemma Forall2_Array_length {A B : Type} (R : A -> B -> Prop) (l1 : list A) (l2 : list B) :
  Forall2 R l1 l2 -> Array_length l1 = Array_length l2.
Proof.
  unfold Array_length. intros H. f_equal. eapply Forall2_length. exact H.
Qed.

(** The median of two permutations of the same doubles. *)
Lemma median_Permutation_same (l1 l2 : list number) :
  Forall valid_number l1 -> Permutation l1 l2 ->
  same_number (statsCalculators.median l1) (statsCalculators.median l2).
Proof.
  intros Hv Hp. unfold statsCalculators.median.
  assert (Hlen : Array_length l1 = Array_length l2)
    by (unfold Array_length; f_equal; apply Permutation_length; exact Hp).
  rewrite <- Hlen. destruct (Array_length l1 =? 0); [left; reflexivity |].
  pose proof (sortedFinite_Permutation l1 l2 Hv Hp) as Hs.
  fold (sortedFinite l1). fold (sortedFinite l2).
  rewrite <- (Forall2_Array_length _ _ _ Hs).
  destruct (Array_length (sortedFinite l1) mod 2 =? 0).
  - apply divide_by_two_same. unfold precisionHelper.add.
    apply round_same. apply num_add_same; apply Array_get_same; exact Hs.
  - apply nth_same. exact Hs.
Qed.


(** ** Rounding to an integer *)

Lemma fexp_binary64 (k : Z) : fexp prec emax k = Z.max (k - 53) (-1074).
Proof. reflexivity. Qed.

Lemma digits2_pos_iter_xO (m d : positive) :
  digits2_pos (Pos.iter xO m d) = (digits2_pos m + d)%positive.
Proof.
  induction d as [| d IH] using Pos.peano_ind.
  - cbn [Pos.iter digits2_pos]. lia.
  - rewrite Pos.iter_succ. cbn [digits2_pos]. rewrite IH. lia.
Qed.

Lemma binary_round_aux_exact (s : bool) (m : positive) (e : Z) :
  bounded prec emax m e = true ->
  binary_round_aux prec emax s (Zpos m) e loc_Exact = S754_finite s m e.
Proof.
  unfold bounded, canonical_mantissa. intros H.
  apply andb_prop in H. destruct H as [Hc He]. apply Z.eqb_eq in Hc.
  unfold binary_round_aux, shr_fexp. cbn [Zdigits2 shr_record_of_loc].
  rewrite Hc, Z.sub_diag. cbn [shr shr_m loc_of_shr_record round_nearest_even Zdigits2].
  rewrite Hc, Z.sub_diag. cbn [shr shr_m]. rewrite He. reflexivity.
Qed.

(** An integer of at most 53 bits is a double. *)
Lemma binary_round_integer (s : bool) (p : positive) :
  Zpos (digits2_pos p) <= prec ->
  exists m e,
    binary_round prec emax s p 0 = S754_finite s m e
    /\ bounded prec emax m e = true
    /\ e <= 0 /\ Zpos m = Zpos p * 2 ^ (- e).
Proof.
  intros Hd. unfold binary_round, shl_align. rewrite fexp_binary64.
  change prec with 53 in Hd.
  remember (digits2_pos p) as d eqn:Heqd.
  replace (Z.max (Zpos d + 0 - 53) (-1074) - 0) with (Zpos d - 53) by lia.
  destruct (Zpos d - 53) as [| k | k] eqn:Hk; try lia.
  - assert (Hb : bounded prec emax p 0 = true).
    { unfold bounded, canonical_mantissa. rewrite fexp_binary64, <- Heqd.
      apply andb_true_intro. split; [apply Z.eqb_eq; lia | reflexivity]. }
    exists p, 0. split; [apply binary_round_aux_exact; exact Hb |].
    split; [exact Hb |]. split; [lia |]. simpl. lia.
  - assert (Hb : bounded prec emax (Pos.iter xO p k)
                   (Z.max (Zpos d + 0 - 53) (-1074)) = true).
    { unfold bounded, canonical_mantissa.
      rewrite fexp_binary64, digits2_pos_iter_xO, <- Heqd.
      change (emax - prec) with 971.
      apply andb_true_intro. split; [apply Z.eqb_eq | apply Z.leb_le]; lia. }
    exists (Pos.iter xO p k), (Z.max (Zpos d + 0 - 53) (-1074)).
    split; [apply binary_round_aux_exact; exact Hb |].
    split; [exact Hb |]. split; [lia |].
    rewrite Pos_iter_xO. f_equal. f_equal. lia.
Qed.

Lemma integer_of_int_to_number (s : bool) (n : Z) :
  Z.abs n <= 2 ^ (prec - 1) ->
  integer_of (int_to_number s n) = Some n
  /\ is_finite (int_to_number s n) = true
  /\ valid_number (int_to_number s n).
Proof.
  change (2 ^ (prec - 1)) with 4503599627370496. intros Hn.
  unfold int_to_number, valid_number.
  destruct n as [| p | p]; cbn [binary_normalize].
  - repeat split.
  - pose proof (digits2_pos_bounds p) as [Hlo _].
    assert (Hd : Zpos (digits2_pos p) <= prec).
    { change prec with 53.
      destruct (Z_le_gt_dec (Zpos (digits2_pos p)) 53) as [H | H]; [exact H |].
      assert (2 ^ 53 <= 2 ^ (Zpos (digits2_pos p) - 1))
        by (apply Z.pow_le_mono_r; lia).
      change (2 ^ 53) with 9007199254740992 in *. lia. }
    destruct (binary_round_integer false p Hd) as [m [e [-> [Hb [He Hm]]]]].
    cbn [integer_of is_finite valid_binary cond_Zopp]. repeat split; [| exact Hb].
    destruct (0 <=? e) eqn:E.
    + apply Z.leb_le in E. assert (e = 0) by lia. subst e.
      simpl in Hm. rewrite Z.pow_0_r. f_equal. lia.
    + assert (Hpow : 0 < 2 ^ (- e)) by (apply Z.pow_pos_nonneg; lia).
      rewrite Hm, Z.mod_mul by lia. cbn [Z.eqb].
      rewrite Z.div_mul by lia. reflexivity.
  - pose proof (digits2_pos_bounds p) as [Hlo _].
    assert (Hd : Zpos (digits2_pos p) <= prec).
    { change prec with 53.
      destruct (Z_le_gt_dec (Zpos (digits2_pos p)) 53) as [H | H]; [exact H |].
      assert (2 ^ 53 <= 2 ^ (Zpos (digits2_pos p) - 1))
        by (apply Z.pow_le_mono_r; lia).
      change (2 ^ 53) with 9007199254740992 in *. lia. }
    destruct (binary_round_integer true p Hd) as [m [e [-> [Hb [He Hm]]]]].
    cbn [integer_of is_finite valid_binary cond_Zopp]. repeat split; [| exact Hb].
    destruct (0 <=? e) eqn:E.
    + apply Z.leb_le in E. assert (e = 0) by lia. subst e.
      simpl in Hm. rewrite Z.pow_0_r. f_equal. lia.
    + assert (Hpow : 0 < 2 ^ (- e)) by (apply Z.pow_pos_nonneg; lia).
      rewrite Hm, Z.mod_mul by lia. cbn [Z.eqb].
      replace (- (Zpos p * 2 ^ (- e))) with ((- Zpos p) * 2 ^ (- e)) by lia.
      rewrite Z.div_mul by lia. reflexivity.
Qed.


Lemma Math_round_integral (s : bool) (m : positive) (e : Z) :
  0 <= e -> Math_round (S754_finite s m e) = S754_finite s m e.
Proof.
  intros He. unfold Math_round. apply Z.leb_le in He. rewrite He. reflexivity.
Qed.

Lemma Math_round_nearest (s : bool) (m : positive) (e : Z) :
  e < 0 ->
  exists n,
    Math_round (S754_finite s m e) = int_to_number s n
    /\ nearest_half_up (fraction_of (S754_finite s m e)) n
    /\ (valid_number (S754_finite s m e) ->
        integer_of (Math_round (S754_finite s m e)) = Some n).
Proof.
  intros He. unfold Math_round, fraction_of, nearest_half_up.
  assert (E : (0 <=? e) = false) by (apply Z.leb_gt; exact He). rewrite E.
  set (v := cond_Zopp s (Zpos m)).
  set (n := (2 * v + 2 ^ (- e)) / 2 ^ (1 - e)).
  assert (Hk : 2 ^ (1 - e) = 2 * 2 ^ (- e)).
  { replace (1 - e) with (Z.succ (- e)) by lia. apply Z.pow_succ_r. lia. }
  assert (Hp : 2 <= 2 ^ (- e))
    by (change 2 with (2 ^ 1) at 1; apply Z.pow_le_mono_r; lia).
  assert (Hn : (2 * n - 1) * 2 ^ (- e) <= 2 * v < (2 * n + 1) * 2 ^ (- e)).
  { pose proof (Z.mul_div_le (2 * v + 2 ^ (- e)) (2 ^ (1 - e)) ltac:(lia)) as H1.
    pose proof (Z.mul_succ_div_gt (2 * v + 2 ^ (- e)) (2 ^ (1 - e)) ltac:(lia)) as H2.
    fold n in H1, H2. rewrite Hk in H1, H2. lia. }
  exists n. split; [reflexivity |]. split; [exact Hn |].
  intros Hv. apply integer_of_int_to_number.
  unfold valid_number in Hv. cbn [valid_binary] in Hv.
  apply bounded_inv in Hv. destruct Hv as [_ [Hhi _]].
  change (2 ^ prec) with 9007199254740992 in Hhi.
  change (2 ^ (prec - 1)) with 4503599627370496.
  assert (Hv : - 9007199254740992 < v < 9007199254740992)
    by (unfold v; destruct s; cbn [cond_Zopp]; lia).
  apply Z.abs_le. split; nia.
Qed.

(** ** Results that are never [NaN] *)

Lemma shr_fexp_nonneg (m e : Z) (l : location) :
  0 <= m -> 0 <= shr_m (fst (shr_fexp prec emax m e l)).
Proof.
  intros Hm. unfold shr_fexp, shr.
  destruct (fexp prec emax (Zdigits2 m + e) - e) as [| p | p]; cbn [fst].
  - rewrite shr_m_of_loc. exact Hm.
  - rewrite shr_m_iter_pos by (rewrite shr_m_of_loc; exact Hm).
    rewrite shr_m_of_loc. apply Z.div_pos; [exact Hm | apply Z.pow_pos_nonneg; lia].
  - rewrite shr_m_of_loc. exact Hm.
Qed.

Lemma binary_round_aux_not_nan (s : bool) (m e : Z) (l : location) :
  0 <= m -> is_nan (binary_round_aux prec emax s m e l) = false.
Proof.
  intros Hm. unfold binary_round_aux.
  pose proof (shr_fexp_nonneg m e l Hm) as H1.
  destruct (shr_fexp prec emax m e l) as [mrs' e']. cbn [fst] in H1.
  assert (H2 : 0 <= round_nearest_even (shr_m mrs') (loc_of_shr_record mrs')).
  { destruct (loc_of_shr_record mrs') as [| []]; cbn [round_nearest_even];
      try destruct (Z.even (shr_m mrs')); lia. }
  pose proof (shr_fexp_nonneg _ e' loc_Exact H2) as H3.
  destruct (shr_fexp prec emax _ e' loc_Exact) as [mrs'' e'']. cbn [fst] in H3.
  destruct (shr_m mrs'') as [| p | p]; try lia; try reflexivity.
  destruct (e'' <=? emax - prec); reflexivity.
Qed.

Lemma binary_normalize_not_nan (z e : Z) (s : bool) :
  is_nan (binary_normalize prec emax z e s) = false.
Proof.
  destruct z as [| p | p]; cbn [binary_normalize]; try reflexivity;
    unfold binary_round; destruct (shl_align _ _ _);
    apply binary_round_aux_not_nan; lia.
Qed.

Lemma num_mul_not_nan (x y : number) :
  is_finite x = true -> is_finite y = true -> is_nan (num_mul x y) = false.
Proof.
  destruct x as [sx | | | sx mx ex]; try discriminate;
    destruct y as [sy | | | sy my ey]; try discriminate; intros _ _;
    try reflexivity.
  unfold num_mul. cbn [SFmul]. apply binary_round_aux_not_nan. lia.
Qed.

Lemma Math_round_not_nan (x : number) :
  is_nan x = false -> is_nan (Math_round x) = false.
Proof.
  destruct x as [s | s | | s m e]; try discriminate; intros _; try reflexivity.
  unfold Math_round. destruct (0 <=? e); [reflexivity |].
  apply binary_normalize_not_nan.
Qed.

Lemma num_div_not_nan (x : number) (s : bool) (m : positive) (e : Z) :
  is_nan x = false -> is_nan (num_div x (S754_finite s m e)) = false.
Proof.
  destruct x as [sx | sx | | sx mx ex]; try discriminate; intros _;
    try reflexivity.
  unfold num_div. cbn [SFdiv]. unfold SFdiv_core_binary.
  set (m' := match _ - _ - _ with Z0 => _ | Zpos _ => _ | Zneg _ => _ end).
  assert (Hm' : 0 <= m').
  { unfold m'. destruct (_ - _ - _) as [| p | p]; try lia.
    apply Z.shiftl_nonneg. lia. }
  pose proof (Z_div_mod m' (Zpos m) ltac:(lia)) as Hdiv.
  destruct (Z.div_eucl m' (Zpos m)) as [q r].
  apply binary_round_aux_not_nan. nia.
Qed.

Lemma round_not_nan (num : value) :
  is_nan (precisionHelper.round num default_precision) = false.
Proof.
  unfold precisionHelper.round. destruct num; try reflexivity.
  destruct (is_finite n) eqn:E; [| reflexivity]. cbn [negb].
  assert (Hp : Math_pow10 default_precision
               = S754_finite false 8589934592000000 (-33))
    by (vm_compute; reflexivity).
  rewrite Hp. apply num_div_not_nan. apply Math_round_not_nan.
  apply num_mul_not_nan; [exact E | reflexivity].
Qed.

Lemma divide_not_nan (a b : value) : is_nan (precisionHelper.divide a b) = false.
Proof.
  unfold precisionHelper.divide. destruct a; try reflexivity.
  destruct b; try reflexivity.
  destruct (_ || _); [reflexivity | apply round_not_nan].
Qed.


(** ** The median *)

Lemma Array_get_nth (l : list number) (i : Z) :
  0 <= i < Array_length l -> Array_get l i = VNum (nth (Z.to_nat i) l NaN).
Proof.
  unfold Array_get, Array_length. intros [H0 H1].
  assert (E : (i <? 0) = false) by (apply Z.ltb_ge; exact H0). rewrite E.
  assert (Hn : (Z.to_nat i < List.length l)%nat) by lia.
  destruct (nth_error l (Z.to_nat i)) as [x |] eqn:Hx.
  - rewrite (nth_error_nth _ _ _ Hx). reflexivity.
  - apply nth_error_None in Hx. lia.
Qed.

Lemma median_without_finite_entry (values : list number) :
  filter is_finite values = [] -> statsCalculators.median values = pos_zero.
Proof.
  intros H. unfold statsCalculators.median. rewrite H.
  destruct (Array_length values =? 0); [reflexivity |].
  vm_compute. reflexivity.
Qed.

Lemma median_odd (values : list number) :
  Array_length (sortedFinite values) mod 2 = 1 ->
  statsCalculators.median values
  = nth (Z.to_nat (Array_length (sortedFinite values) / 2)) (sortedFinite values) NaN.
Proof.
  intros Hodd. unfold statsCalculators.median. fold (sortedFinite values).
  destruct (Array_length values =? 0) eqn:E.
  - apply Z.eqb_eq in E. unfold Array_length in E.
    destruct values; [| simpl in E; lia].
    unfold sortedFinite, Array_length in Hodd. simpl in Hodd. discriminate.
  - rewrite Hodd. reflexivity.
Qed.

Lemma median_even (values : list number) :
  sortedFinite values <> [] ->
  Array_length (sortedFinite values) mod 2 = 0 ->
  let sorted := sortedFinite values in
  let mid := Array_length sorted / 2 in
  statsCalculators.median values
  = precisionHelper.divide
      (VNum (precisionHelper.add (VNum (nth (Z.to_nat (mid - 1)) sorted NaN))
                                 (VNum (nth (Z.to_nat mid) sorted NaN))))
      (VNum (num_of_Z 2)).
Proof.
  intros Hne Heven. cbv zeta. unfold statsCalculators.median.
  fold (sortedFinite values).
  destruct (Array_length values =? 0) eqn:E.
  - apply Z.eqb_eq in E. unfold Array_length in E.
    destruct values; [| simpl in E; lia]. exfalso. apply Hne. reflexivity.
  - rewrite Heven. cbn [Z.eqb].
    remember (sortedFinite values) as sorted eqn:Hs. clear Hs.
    assert (Hlen : 2 <= Array_length sorted).
    { unfold Array_length in *. destruct sorted as [| a [| b l]].
      - exfalso. apply Hne. reflexivity.
      - simpl in Heven. discriminate.
      - simpl List.length. lia. }
    pose proof (Z.div_mod (Array_length sorted) 2 ltac:(lia)) as Hdiv.
    rewrite !Array_get_nth by lia. reflexivity.
Qed.

Lemma sortedFinite_finite (values : list number) :
  Forall (fun x => is_finite x = true) (sortedFinite values).
Proof.
  unfold sortedFinite.
  eapply Permutation_Forall;
    [apply Permutation_sym; apply Array_sort_Permutation |].
  apply Forall_forall. intros x Hx. apply filter_In in Hx. tauto.
Qed.

Lemma median_not_nan (values : list number) :
  is_nan (statsCalculators.median values) = false.
Proof.
  unfold statsCalculators.median. fold (sortedFinite values).
  destruct (Array_length values =? 0); [reflexivity |].
  destruct (Array_length (sortedFinite values) mod 2 =? 0) eqn:E.
  - apply divide_not_nan.
  - apply Z.eqb_neq in E.
    pose proof (sortedFinite_finite values) as Hf.
    assert (Hn : (Z.to_nat (Array_length (sortedFinite values) / 2)
                  < List.length (sortedFinite values))%nat).
    { unfold Array_length in *.
      destruct (sortedFinite values) as [| a l]; [exfalso; apply E; reflexivity |].
      pose proof (Z.div_mod (Z.of_nat (List.length (a :: l))) 2 ltac:(lia)).
      pose proof (Z.mod_pos_bound (Z.of_nat (List.length (a :: l))) 2 ltac:(lia)).
      lia. }
    rewrite Forall_forall in Hf.
    specialize (Hf _ (nth_In _ NaN Hn)).
    destruct (nth _ _ NaN); try discriminate; reflexivity.
Qed.

Lemma same_number_num_eq (x y : number) :
  same_number x y -> is_nan x = false -> num_eq x y = true.
Proof.
  unfold num_eq, SFeqb, SFcompare.
  intros [<- | [Hx Hy]] Hn.
  - destruct x as [[] | [] | | [] m e]; try discriminate; try reflexivity;
      rewrite Z.compare_refl, Pos.compare_cont_refl; reflexivity.
  - destruct x as [[] | | |], y as [[] | | |]; try discriminate; reflexivity.
Qed.

Lemma literals_1234 :
  statsCalculators.median [literal "1"; literal "2"; literal "3"; literal "4"]
  = literal "2.5"
  /\ statsCalculators.median
       [literal "1"; literal "3"; literal "5"; literal "7"; literal "9"]
     = literal "5".
Proof. split; vm_compute; reflexivity. Qed.

Lemma sortedFinite_nil (values : list number) :
  sortedFinite values = [] -> filter is_finite values = [].
Proof.
  unfold sortedFinite. intros H.
  pose proof (Array_sort_Permutation (filter is_finite values)) as Hp.
  rewrite H in Hp. apply Permutation_nil in Hp. exact Hp.
Qed.

(** C8: [median] returns 0 when no entry is finite; otherwise it sorts the
    finite entries ascending (the sorted array is a permutation of the
    finite entries, in ascending order) and returns the middle entry as it
    is when their number is odd, [divide(add(lower, upper), 2)] of the two
    middle entries when it is even; [median([1,2,3,4])] is 2.5 and
    [median([1,3,5,7,9])] is 5; and the medians of two permutations of the
    same numbers are equal ([===]), that is the same number up to the sign
    of a zero. *)
Theorem median_of_finite_entries :
  (forall values : list number,
      filter is_finite values = [] ->
      statsCalculators.median values = pos_zero)
  /\ (forall values : list number,
         Permutation (sortedFinite values) (filter is_finite values)
         /\ (Forall valid_number values -> ascending (sortedFinite values)))
  /\ (forall values : list number,
         Array_length (sortedFinite values) mod 2 = 1 ->
         statsCalculators.median values
         = nth (Z.to_nat (Array_length (sortedFinite values) / 2))
               (sortedFinite values) NaN)
  /\ (forall values : list number,
         filter is_finite values <> [] ->
         Array_length (sortedFinite values) mod 2 = 0 ->
         let sorted := sortedFinite values in
         let mid := Array_length sorted / 2 in
         statsCalculators.median values
         = precisionHelper.divide
             (VNum (precisionHelper.add
                      (VNum (nth (Z.to_nat (mid - 1)) sorted NaN))
                      (VNum (nth (Z.to_nat mid) sorted NaN))))
             (VNum (num_of_Z 2)))
  /\ statsCalculators.median
       [literal "1"; literal "2"; literal "3"; literal "4"]
     = literal "2.5"
  /\ statsCalculators.median
       [literal "1"; literal "3"; literal "5"; literal "7"; literal "9"]
     = literal "5"
  /\ (forall l1 l2 : list number,
         Forall valid_number l1 -> Permutation l1 l2 ->
         num_eq (statsCalculators.median l1) (statsCalculators.median l2) = true
         /\ same_number (statsCalculators.median l1) (statsCalculators.median l2)).
Proof.
  split; [exact median_without_finite_entry |].
  split.
  { intros values. split.
    - apply Array_sort_Permutation.
    - intros Hv. apply Array_sort_ascending. apply filter_finite_doubles. exact Hv. }
  split; [exact median_odd |].
  split.
  { intros values Hne. apply median_even.
    intros H. apply Hne. apply sortedFinite_nil. exact H. }
  split; [apply literals_1234 |].
  split; [apply literals_1234 |].
  intros l1 l2 Hv Hp.
  pose proof (median_Permutation_same l1 l2 Hv Hp) as Hs.
  split; [| exact Hs].
  apply same_number_num_eq; [exact Hs | apply median_not_nan].
Qed.

Lemma median_of_finite_entries_witness :
  num_eq (statsCalculators.median [neg_zero; literal "5"; pos_zero; NaN])
         (statsCalculators.median [NaN; pos_zero; neg_zero; literal "5"]) = true
  /\ same_number
       (statsCalculators.median [neg_zero; literal "5"; pos_zero; NaN])
       (statsCalculators.median [NaN; pos_zero; neg_zero; literal "5"]).
Proof.
  apply (proj2 (proj2 (proj2 (proj2 (proj2 (proj2 median_of_finite_entries)))))).
  - repeat constructor.
  - apply Permutation_trans with [neg_zero; pos_zero; literal "5"; NaN].
    + apply perm_skip. apply perm_swap.
    + apply Permutation_trans with [pos_zero; neg_zero; literal "5"; NaN].
      * apply perm_swap.
      * apply Permutation_trans with ([pos_zero; neg_zero; literal "5"] ++ [NaN])%list.
        -- apply Permutation_refl.
        -- apply Permutation_sym. apply Permutation_cons_append.
Defined.

(** ** Rounding to a precision *)

(** C3, as the code has it: [round] returns 0 for every [num] that is not a
    finite number; for a finite [x] it returns
    [Math.round(x * 10^precision) / 10^precision], where [Math.round] leaves
    an integral product as it is and otherwise returns the double of the
    integer [n] with [n - 1/2 <= product < n + 1/2]: the nearest integer,
    the one towards +Infinity on a tie.  At precision 6, [-0.0000005] is
    scaled to [-0.5] and rounds to [-0], [-0.0000015] to [-0.000001],
    [0.0000005] to [0.000001]. *)
Theorem round_half_up :
  (forall (num : value) (precision : nat),
      Number_isFinite num = false ->
      precisionHelper.round num precision = pos_zero)
  /\ (forall (x : number) (precision : nat),
         is_finite x = true ->
         let scaled := num_mul x (Math_pow10 precision) in
         precisionHelper.round (VNum x) precision
         = num_div (Math_round scaled) (Math_pow10 precision)
         /\ (forall (s : bool) (m : positive) (e : Z),
                scaled = S754_finite s m e ->
                (0 <= e -> Math_round scaled = scaled)
                /\ (e < 0 ->
                    exists n : Z,
                      Math_round scaled = int_to_number s n
                      /\ nearest_half_up (fraction_of scaled) n
                      /\ (valid_number scaled ->
                          integer_of (Math_round scaled) = Some n))))
  /\ num_mul (literal "-0.0000005") (Math_pow10 6) = literal "-0.5"
  /\ precisionHelper.round (VNum (literal "-0.0000005")) 6 = neg_zero
  /\ precisionHelper.round (VNum (literal "0.0000005")) 6 = literal "0.000001"
  /\ precisionHelper.round (VNum (literal "-0.0000015")) 6 = literal "-0.000001"
  /\ precisionHelper.round (VNum (literal "-2.5")) 0 = literal "-2"
  /\ precisionHelper.round (VNum (literal "2.5")) 0 = literal "3".
Proof.
  split.
  { intros num precision H. unfold precisionHelper.round.
    destruct num as [| | b | x | str | l elems | l props]; try reflexivity.
    simpl in H. rewrite H. reflexivity. }
  split.
  { intros x precision Hx scaled. split.
    - unfold precisionHelper.round. rewrite Hx. reflexivity.
    - intros s m e Hs. rewrite Hs. split.
      + apply Math_round_integral.
      + apply Math_round_nearest. }
  repeat split; vm_compute; reflexivity.
Qed.

Lemma round_half_up_witness :
  precisionHelper.round (VNum (literal "-0.0000005")) 6
  = num_div (Math_round (num_mul (literal "-0.0000005") (Math_pow10 6)))
            (Math_pow10 6)
  /\ precisionHelper.round (VNum NaN) 6 = pos_zero.
Proof.
  split.
  - apply (proj1 (proj2 round_half_up) (literal "-0.0000005") 6%nat).
    reflexivity.
  - apply (proj1 round_half_up (VNum NaN) 6%nat). reflexivity.
Defined.

(** C3 fails as stated: [-0.0000005] at precision 6 is scaled to the tie
    [-0.5], which [Math.round] takes towards +Infinity, to [-0]; the result
    is [-0] and not [-0.000001]. *)
Lemma round_negative_tie :
  num_mul (literal "-0.0000005") (Math_pow10 default_precision) = literal "-0.5"
  /\ Math_round (literal "-0.5") = neg_zero
  /\ precisionHelper.round (VNum (literal "-0.0000005")) default_precision
     = neg_zero
  /\ precisionHelper.round (VNum (literal "-0.0000005")) default_precision
     <> literal "-0.000001"
  /\ num_eq (precisionHelper.round (VNum (literal "-0.0000005")) default_precision)
            (literal "-0.000001") = false.
Proof.
  repeat split; try (vm_compute; reflexivity).
  vm_compute. discriminate.
Qed.

(** ** Maximum and minimum of the finite entries *)

Lemma num_le_refl (x : number) : is_finite x = true -> num_le x x = true.
Proof.
  intros Hx. apply num_le_total; [exact Hx | exact Hx |].
  destruct (num_lt x x) eqn:E; [| reflexivity].
  apply (num_lt_key x x Hx Hx) in E. exfalso. apply E.
  destruct (order_key x) as [[? ?] ?]. unfold key_le. lia.
Qed.

Lemma number_eqb_eq (x y : number) : number_eqb x y = true -> x = y.
Proof.
  destruct x as [s1 | s1 | | s1 m1 e1], y as [s2 | s2 | | s2 m2 e2];
    cbn [number_eqb]; try discriminate; intros H.
  - apply Bool.eqb_prop in H. congruence.
  - apply Bool.eqb_prop in H. congruence.
  - reflexivity.
  - apply andb_prop in H. destruct H as [H He].
    apply andb_prop in H. destruct H as [Hs Hm].
    apply Bool.eqb_prop in Hs. apply Pos.eqb_eq in Hm. apply Z.eqb_eq in He.
    congruence.
Qed.

Lemma finite_not_nan (x : number) : is_finite x = true -> is_nan x = false.
Proof. destruct x; try discriminate; reflexivity. Qed.

Lemma Math_max_from_finite (l : list number) (highest : number) :
  is_finite highest = true ->
  Forall (fun x => is_finite x = true) l ->
  In (Math_max_from highest l) (highest :: l)
  /\ num_le highest (Math_max_from highest l) = true
  /\ Forall (fun x => num_le x (Math_max_from highest l) = true) l.
Proof.
  intros Hh Hl. revert highest Hh.
  induction Hl as [| n l Hn Hl IH]; intros highest Hh; cbn [Math_max_from].
  - split; [left; reflexivity |]. split; [apply num_le_refl; exact Hh | constructor].
  - rewrite (finite_not_nan n Hn).
    set (highest1 := if number_eqb n pos_zero && number_eqb highest neg_zero
                     then pos_zero else highest).
    assert (H1 : is_finite highest1 = true
                 /\ (highest1 = highest \/ highest1 = n)
                 /\ num_le highest highest1 = true).
    { unfold highest1.
      destruct (number_eqb n pos_zero && number_eqb highest neg_zero) eqn:E.
      - apply andb_prop in E. destruct E as [E1 E2].
        apply number_eqb_eq in E1, E2. subst. repeat split; auto.
      - repeat split; auto. apply num_le_refl. exact Hh. }
    destruct H1 as [Hf1 [Hin1 Hle1]].
    set (highest2 := if num_gt n highest1 then n else highest1).
    assert (H2 : is_finite highest2 = true
                 /\ (highest2 = highest \/ highest2 = n)
                 /\ num_le highest1 highest2 = true
                 /\ num_le n highest2 = true).
    { unfold highest2, num_gt. destruct (SFltb highest1 n) eqn:E.
      - repeat split; auto.
        + exact (num_lt_le _ _ Hf1 Hn E).
        + apply num_le_refl. exact Hn.
      - repeat split; auto.
        + apply num_le_refl. exact Hf1.
        + exact (num_le_total _ _ Hn Hf1 E). }
    destruct H2 as [Hf2 [Hin2 [Hle2 Hlen]]].
    destruct (IH highest2 Hf2) as [Hin [Hle Hall]].
    assert (Hr : is_finite (Math_max_from highest2 l) = true).
    { destruct Hin as [<- | Hin]; [exact Hf2 |].
      rewrite Forall_forall in Hl. apply Hl. exact Hin. }
    split; [| split].
    + destruct Hin as [<- | Hin].
      * destruct Hin2 as [-> | ->]; [left | right; left]; reflexivity.
      * right. right. exact Hin.
    + apply (num_le_trans highest highest1); auto.
      apply (num_le_trans highest1 highest2); auto.
    + constructor; [| exact Hall].
      apply (num_le_trans n highest2); auto.
Qed.

Lemma Math_min_from_finite (l : list number) (lowest : number) :
  is_finite lowest = true ->
  Forall (fun x => is_finite x = true) l ->
  In (Math_min_from lowest l) (lowest :: l)
  /\ num_le (Math_min_from lowest l) lowest = true
  /\ Forall (fun x => num_le (Math_min_from lowest l) x = true) l.
Proof.
  intros Hh Hl. revert lowest Hh.
  induction Hl as [| n l Hn Hl IH]; intros lowest Hh; cbn [Math_min_from].
  - split; [left; reflexivity |]. split; [apply num_le_refl; exact Hh | constructor].
  - rewrite (finite_not_nan n Hn).
    set (lowest1 := if number_eqb n neg_zero && number_eqb lowest pos_zero
                    then neg_zero else lowest).
    assert (H1 : is_finite lowest1 = true
                 /\ (lowest1 = lowest \/ lowest1 = n)
                 /\ num_le lowest1 lowest = true).
    { unfold lowest1.
      destruct (number_eqb n neg_zero && number_eqb lowest pos_zero) eqn:E.
      - apply andb_prop in E. destruct E as [E1 E2].
        apply number_eqb_eq in E1, E2. subst. repeat split; auto.
      - repeat split; auto. apply num_le_refl. exact Hh. }
    destruct H1 as [Hf1 [Hin1 Hle1]].
    set (lowest2 := if num_lt n lowest1 then n else lowest1).
    assert (H2 : is_finite lowest2 = true
                 /\ (lowest2 = lowest \/ lowest2 = n)
                 /\ num_le lowest2 lowest1 = true
                 /\ num_le lowest2 n = true).
    { unfold lowest2. destruct (num_lt n lowest1) eqn:E.
      - repeat split; auto.
        + exact (num_lt_le _ _ Hn Hf1 E).
        + apply num_le_refl. exact Hn.
      - repeat split; auto.
        + apply num_le_refl. exact Hf1.
        + exact (num_le_total _ _ Hf1 Hn E). }
    destruct H2 as [Hf2 [Hin2 [Hle2 Hlen]]].
    destruct (IH lowest2 Hf2) as [Hin [Hle Hall]].
    assert (Hr : is_finite (Math_min_from lowest2 l) = true).
    { destruct Hin as [<- | Hin]; [exact Hf2 |].
      rewrite Forall_forall in Hl. apply Hl. exact Hin. }
    split; [| split].
    + destruct Hin as [<- | Hin].
      * destruct Hin2 as [-> | ->]; [left | right; left]; reflexivity.
      * right. right. exact Hin.
    + apply (num_le_trans _ lowest2); auto.
      apply (num_le_trans lowest2 lowest1); auto.
    + constructor; [| exact Hall].
      apply (num_le_trans _ lowest2); auto.
Qed.

(** Where a finite entry exists, [max] is the largest and [min] the smallest
    of the finite entries. *)
Lemma max_min_of_finite_entries (values : list number) :
  filter is_finite values <> [] ->
  (In (statsCalculators.max values) (filter is_finite values)
   /\ Forall (fun x => num_le x (statsCalculators.max values) = true)
             (filter is_finite values))
  /\ (In (statsCalculators.min values) (filter is_finite values)
      /\ Forall (fun x => num_le (statsCalculators.min values) x = true)
                (filter is_finite values)).
Proof.
  intros Hne. unfold statsCalculators.max, statsCalculators.min.
  assert (Hlen : (Array_length values =? 0) = false).
  { apply Z.eqb_neq. unfold Array_length.
    destruct values; [exfalso; apply Hne; reflexivity | simpl; lia]. }
  rewrite Hlen.
  assert (Hf : Forall (fun x => is_finite x = true) (filter is_finite values)).
  { apply Forall_forall. intros x Hx. apply filter_In in Hx. tauto. }
  destruct (filter is_finite values) as [| n l]; [exfalso; apply Hne; reflexivity |].
  inversion Hf as [| ? ? Hn Hl]; subst.
  unfold Math_max, Math_min. cbn [Math_max_from Math_min_from].
  rewrite (finite_not_nan n Hn).
  assert (E1 : num_gt n neg_infinity = true) by (destruct n; try discriminate; reflexivity).
  assert (E2 : num_lt n pos_infinity = true) by (destruct n as [| | | []]; try discriminate; reflexivity).
  replace (number_eqb n pos_zero && number_eqb neg_infinity neg_zero) with false
    by (rewrite andb_false_r; reflexivity).
  replace (number_eqb n neg_zero && number_eqb pos_infinity pos_zero) with false
    by (rewrite andb_false_r; reflexivity).
  rewrite E1, E2.
  destruct (Math_max_from_finite l n Hn Hl) as [Hin [Hle Hall]].
  destruct (Math_min_from_finite l n Hn Hl) as [Hin' [Hle' Hall']].
  repeat split; auto.
Qed.

(** ** The summarizer on sequences without a finite entry *)

(** C1: on the non-empty sequence [[NaN]], which is empty once its
    non-finite entries are discarded, [max] returns -Infinity and [min]
    returns +Infinity, where the specification gives 0; [median], the
    sibling order statistic, does return 0 there. *)
Theorem max_min_of_NaN_only :
  filter is_finite [NaN] = []
  /\ statsCalculators.max [NaN] = neg_infinity
  /\ statsCalculators.min [NaN] = pos_infinity
  /\ statsCalculators.median [NaN] = pos_zero
  /\ statsCalculators.max [] = pos_zero
  /\ statsCalculators.min [] = pos_zero.
Proof. repeat split; reflexivity. Qed.

(** The same for every non-empty sequence without a finite entry. *)
Lemma max_min_without_finite_entry (values : list number) :
  values <> [] -> filter is_finite values = [] ->
  statsCalculators.max values = neg_infinity
  /\ statsCalculators.min values = pos_infinity.
Proof.
  intros Hne Hfil. unfold statsCalculators.max, statsCalculators.min.
  rewrite Hfil. destruct values as [| x values]; [congruence |].
  unfold Array_length. simpl List.length.
  replace (Z.of_nat (S (List.length values)) =? 0) with false.
  - split; reflexivity.
  - symmetry. apply Z.eqb_neq. lia.
Qed.
